(** * go-www: the fluent request builder of [request.go]

    A shallow embedding of the [Request] builder (configuration calls,
    multipart assembly, dispatch) together with the parts of the Go
    standard library whose behaviour the builder relies on
    ([net/url] query encoding, [mime/multipart] envelopes, [net/http]
    request construction), followed by the properties of the builder. *)

From Stdlib Require Import Ascii String NArith Lia.
From stdpp Require Import base option list gmap strings fin_maps sorting.

Local Open Scope string_scope.
Local Open Scope list_scope.

(** ** Go strings

    A Go [string] is a sequence of bytes: Rocq's [string] over 8-bit
    [ascii] is the same thing. *)

Module GoString.

Definition byte_le (a b : ascii) : bool := (N_of_ascii a <=? N_of_ascii b)%N.

(** [lo <= c && c <= hi] *)
Definition between (lo hi c : ascii) : bool := byte_le lo c && byte_le c hi.

(** [strings.Contains(s, string(c))] for a one-byte needle. *)
Fixpoint ContainsByte (c : ascii) (s : string) : bool :=
  match s with
  | EmptyString => false
  | String d s' => if Ascii.eqb d c then true else ContainsByte c s'
  end.

(** [strings.Cut(s, string(sep))] for a one-byte separator:
    the text before the first [sep], the text after it, and whether
    [sep] was found. *)
Fixpoint Cut (sep : ascii) (s : string) : string * string * bool :=
  match s with
  | EmptyString => (EmptyString, EmptyString, false)
  | String d s' =>
      if Ascii.eqb d sep then (EmptyString, s', true)
      else let '(before, after, found) := Cut sep s' in
           (String d before, after, found)
  end.

Definition isEmpty (s : string) : bool :=
  match s with EmptyString => true | _ => false end.

End GoString.
Import GoString.

(** ** Errors

    Go's [error] interface values.  [None : option error] is [nil]. *)

Inductive error : Type :=
| ErrorEmptyListValues                  (* the package-level sentinel of request.go *)
| errors_New (msg : string)             (* errors.New(msg) *)
| EscapeError (s : string)              (* net/url: invalid percent escape *)
| SemicolonError                        (* net/url: invalid semicolon separator in query *)
| LibraryError (pkg msg : string).      (* raised by a collaborator: encoding/json, io, net/http *)

#[global] Instance error_eq_dec : EqDecision error.
Proof. solve_decision. Defined.

(** ** net/url: query escaping and [url.Values] *)

Module url.

(** [url.Values] is [map[string][]string]. *)
Abbreviation Values := (gmap string (list string)).

(** [shouldEscape(c, encodeQueryComponent)]: everything but the
    unreserved characters is escaped. *)
Definition shouldEscape (c : ascii) : bool :=
  if between "a" "z" c || between "A" "Z" c || between "0" "9" c then false
  else if Ascii.eqb c "-" || Ascii.eqb c "_" || Ascii.eqb c "." || Ascii.eqb c "~"
  then false
  else true.

(** [upperhex[n]] for [n < 16]. *)
Definition upperhex (n : N) : ascii :=
  match String.get (N.to_nat n) "0123456789ABCDEF" with
  | Some c => c
  | None => "0"%char
  end.

Definition ishex (c : ascii) : bool :=
  between "0" "9" c || between "a" "f" c || between "A" "F" c.

Definition unhex (c : ascii) : N :=
  if between "0" "9" c then N_of_ascii c - N_of_ascii "0"
  else if between "a" "f" c then N_of_ascii c - N_of_ascii "a" + 10
  else if between "A" "F" c then N_of_ascii c - N_of_ascii "A" + 10
  else 0.

(** One byte of [escape(s, encodeQueryComponent)]. *)
Definition escape_byte (c : ascii) : string :=
  if shouldEscape c then
    if Ascii.eqb c " " then "+"
    else String "%" (String (upperhex (N.shiftr (N_of_ascii c) 4))
                       (String (upperhex (N.land (N_of_ascii c) 15)) EmptyString))
  else String c EmptyString.

Fixpoint QueryEscape (s : string) : string :=
  match s with
  | EmptyString => EmptyString
  | String c s' => escape_byte c +:+ QueryEscape s'
  end.

(** [unescape(s, encodeQueryComponent)]: the first malformed escape
    fails the whole string with an [EscapeError] carrying at most
    three bytes from the offending [%]. *)
Fixpoint QueryUnescape (s : string) : error + string :=
  match s with
  | EmptyString => inr EmptyString
  | String c s' =>
      if Ascii.eqb c "%" then
        match s' with
        | String h (String l rest) =>
            if ishex h && ishex l then
              match QueryUnescape rest with
              | inl e => inl e
              | inr t => inr (String (ascii_of_N (N.lor (N.shiftl (unhex h) 4) (unhex l))) t)
              end
            else inl (EscapeError (String c (String h (String l EmptyString))))
        | _ => inl (EscapeError s)
        end
      else
        match QueryUnescape s' with
        | inl e => inl e
        | inr t => inr (String (if Ascii.eqb c "+" then " "%char else c) t)
        end
  end.

(** Byte-wise order on strings, the order of [slices.Sort(keys)]. *)
Definition string_le (a b : string) : Prop := String.leb a b = true.

#[global] Instance string_le_dec a b : Decision (string_le a b).
Proof. unfold string_le. apply _. Defined.

(** The keys of a map, sorted. *)
Definition sorted_keys (v : Values) : list string :=
  merge_sort string_le (map_to_list v).*1.

(** The inner loop of [Values.Encode]: one [key=value] pair per value,
    preceded by [&] unless the buffer is still empty. *)
Definition encode_values (keyEscaped : string) (vs : list string) (buf : string) : string :=
  fold_left
    (fun buf v =>
       (if isEmpty buf then buf else buf +:+ "&") +:+ keyEscaped +:+ "=" +:+ QueryEscape v)
    vs buf.

(** [Values.Encode]: keys in sorted order, each with its values in
    their order. *)
Definition Encode (v : Values) : string :=
  fold_left
    (fun buf k => encode_values (QueryEscape k) (default [] (v !! k)) buf)
    (sorted_keys v) EmptyString.

(** The [&]-separated segments that the loop of [parseQuery] visits,
    in order ([key, query, _ = strings.Cut(query, "&")] until [query]
    is empty). *)
Fixpoint segments (cur : string) (query : string) : list string :=
  match query with
  | EmptyString => if isEmpty cur then [] else [cur]
  | String c q' =>
      if Ascii.eqb c "&" then cur :: segments EmptyString q'
      else segments (cur +:+ String c EmptyString) q'
  end.

(** The body of the loop of [parseQuery], on one segment. *)
Definition parse_segment (st : Values * option error) (key : string)
  : Values * option error :=
  let '(m, err) := st in
  if ContainsByte ";" key then (m, Some SemicolonError)
  else if isEmpty key then (m, err)
  else
    let '(key, value, _) := Cut "=" key in
    match QueryUnescape key with
    | inl err1 => (m, match err with None => Some err1 | Some _ => err end)
    | inr key =>
        match QueryUnescape value with
        | inl err1 => (m, match err with None => Some err1 | Some _ => err end)
        | inr value => (<[key := default [] (m !! key) ++ [value]]> m, err)
        end
    end.

(** [url.ParseQuery]: always returns the map of the pairs it could
    decode, with the first error met. *)
Definition ParseQuery (query : string) : Values * option error :=
  fold_left parse_segment (segments EmptyString query) (∅, None).

End url.

(** Auxiliary views of the query text, used to reason about [url.Encode]
    and [url.ParseQuery]. *)

Module url_aux.
Import url.

(** A map in which every key carries at least one value: a key with
    an empty list leaves no trace in the encoded text. *)
Definition no_empty_list (v : Values) : Prop :=
  ∀ k vs, v !! k = Some vs → vs ≠ [].

(** The [key=value] text that [Values.Encode] writes for one pair. *)
Definition pair_text (kv : string * string) : string :=
  QueryEscape kv.1 +:+ "=" +:+ QueryEscape kv.2.

(** The pairs of a map, keys taken in the given order. *)
Definition pairs_of (v : Values) (keys : list string) : list (string * string) :=
  k ← keys; (λ x, (k, x)) <$> default [] (v !! k).

(** Appending one piece to the buffer of [Values.Encode]. *)
Definition write_piece (buf t : string) : string :=
  (if isEmpty buf then buf else buf +:+ "&") +:+ t.

(** Pieces, each preceded by [&]. *)
Definition amp_concat (ts : list string) : string :=
  foldr (λ t acc, "&" +:+ t +:+ acc) EmptyString ts.

(** The bytes that structure a query string. *)
Definition is_separator (c : ascii) : bool :=
  Ascii.eqb c "&" || Ascii.eqb c "=" || Ascii.eqb c ";".

(** A piece that [segments] reads back whole. *)
Definition piece_ok (t : string) : Prop :=
  isEmpty t = false ∧ ContainsByte "&" t = false.

(** [m[key] = append(m[key], value)] *)
Definition add_pair (m : Values) (kv : string * string) : Values :=
  <[kv.1 := default [] (m !! kv.1) ++ [kv.2]]> m.

End url_aux.

(** ** path/filepath *)

Module filepath.

(** Drop the trailing path separators. *)
Fixpoint strip_trailing (path : string) : string :=
  match path with
  | EmptyString => EmptyString
  | String c p' =>
      let t := strip_trailing p' in
      if Ascii.eqb c "/" && isEmpty t then EmptyString else String c t
  end.

(** The text after the last separator. *)
Fixpoint last_element (cur path : string) : string :=
  match path with
  | EmptyString => cur
  | String c p' =>
      if Ascii.eqb c "/" then last_element EmptyString p'
      else last_element (cur +:+ String c EmptyString) p'
  end.

(** [filepath.Base] (Unix separators, no volume name). *)
Definition Base (path : string) : string :=
  if isEmpty path then "."
  else
    let path := last_element EmptyString (strip_trailing path) in
    if isEmpty path then "/" else path.

End filepath.

(** ** Byte sources

    What a caller can hand to the builder as an [io.Reader]: the bytes
    it delivers before it ends, and the error it ends with ([None] for
    a clean [io.EOF]). *)

Record Source : Type := { content : string; failure : option error }.

Inductive Reader : Type :=
| os_File (name : string) (src : Source)   (* an [*os.File] opened at [name] *)
| plain_Reader (src : Source).             (* any other [io.Reader] *)

Definition source_of (rd : Reader) : Source :=
  match rd with os_File _ src => src | plain_Reader src => src end.

(** [interface{}] values as [AttachFiles] inspects them. *)
Inductive Value : Type :=
| go_Reader (rd : Reader)       (* implements [io.Reader] *)
| go_string (s : string)        (* a [string] *)
| go_other.                     (* anything else, [nil] included *)

(** [v.(io.Reader)] *)
Definition as_Reader (v : Value) : option Reader :=
  match v with go_Reader rd => Some rd | _ => None end.

(** [v.(string)]: the empty string (the zero value) when the
    assertion fails. *)
Definition as_string (v : Value) : string * bool :=
  match v with go_string s => (s, true) | _ => (EmptyString, false) end.

(** The type assertion of [reader] to an [os.File] pointer: the file's
    name when it holds. *)
Definition as_File (rd : Reader) : option string :=
  match rd with os_File name _ => Some name | plain_Reader _ => None end.

(** ** mime/multipart: the envelope writer

    The envelope is kept as the sequence of its parts rather than as
    wire bytes.  A file part records what was handed to
    [CreateFormFile]; a value part what was handed to
    [CreateFormField]. *)

Module multipart.

Inductive Part : Type :=
| FilePart (field filename : string) (contentType : list string) (data : string)
| ValuePart (field : string) (data : string).

Definition part_field (p : Part) : string :=
  match p with FilePart f _ _ _ => f | ValuePart f _ => f end.

Definition part_data (p : Part) : string :=
  match p with FilePart _ _ _ d => d | ValuePart _ d => d end.

Definition part_write (bytes : string) (p : Part) : Part :=
  match p with
  | FilePart f n ct d => FilePart f n ct (d +:+ bytes)
  | ValuePart f d => ValuePart f (d +:+ bytes)
  end.

(** A [multipart.Writer] over a fresh [bytes.Buffer]: the boundary it
    drew, the parts written so far (the last one is the open one) and
    whether the closing delimiter has been written. *)
Record Writer : Type := { boundary : string; parts : list Part; closed : bool }.

(** [multipart.NewWriter(body)]; the boundary is drawn at random by
    the library and is an input of the model. *)
Definition NewWriter (boundary : string) : Writer :=
  {| boundary := boundary; parts := []; closed := false |}.

Definition add_part (p : Part) (w : Writer) : Writer :=
  {| boundary := boundary w; parts := parts w ++ [p]; closed := closed w |}.

(** [w.CreateFormField(field)].  Writing to an in-memory buffer
    cannot fail: the error is always [nil]. *)
Definition CreateFormField (w : Writer) (field : string) : Writer * option error :=
  (add_part (ValuePart field EmptyString) w, None).

(** [io.Copy(part, reader)] into the part opened last: everything the
    source delivers is written, and the error the source ended with
    is returned. *)
Definition Copy (w : Writer) (src : Source) : Writer * option error :=
  match reverse (parts w) with
  | [] => (w, failure src)
  | p :: before =>
      ({| boundary := boundary w;
          parts := reverse before ++ [part_write (content src) p];
          closed := closed w |}, failure src)
  end.

Definition dquote : ascii := ascii_of_nat 34.

(** The characters that force the boundary to be quoted. *)
Definition tspecials : string := "()<>@,;:\" +:+ String dquote "/[]?= ".

Fixpoint ContainsAny (s chars : string) : bool :=
  match s with
  | EmptyString => false
  | String c s' => if ContainsByte c chars then true else ContainsAny s' chars
  end.

(** [w.FormDataContentType()] *)
Definition FormDataContentType (w : Writer) : string :=
  let b := boundary w in
  let b := if ContainsAny b tspecials
           then String dquote b +:+ String dquote EmptyString else b in
  "multipart/form-data; boundary=" +:+ b.

(** [w.Close()] *)
Definition Close (w : Writer) : Writer :=
  {| boundary := boundary w; parts := parts w; closed := true |}.

End multipart.

(** What the builder holds in its [body] field. *)
Inductive BodyReader : Type :=
| strings_NewReader (s : string)              (* [strings.NewReader(s)] *)
| bytes_NewReader (b : string)                (* [bytes.NewReader(b)] *)
| multipart_Buffer (w : multipart.Writer)     (* the buffer a [multipart.Writer] wrote to *)
| caller_Reader (rd : Reader).                (* a reader supplied by the caller *)

(** ** net/http: requests, headers, cookies *)

Module http.

Record URL : Type :=
  { Scheme : string; Host : string; Path : string; RawQuery : string; Fragment : string }.

Definition set_RawQuery (q : string) (u : URL) : URL :=
  {| Scheme := Scheme u; Host := Host u; Path := Path u;
     RawQuery := q; Fragment := Fragment u |}.

Record Cookie : Type := { Name : string; Value : string }.

(** [http.Header] is [map[string][]string]. *)
Abbreviation Header := (gmap string (list string)).

(** [*http.Request] *)
Record Request : Type :=
  { Method : string; Url : URL; Hdr : Header; Body : option BodyReader }.

Definition with_Url (u : URL) (q : Request) : Request :=
  {| Method := Method q; Url := u; Hdr := Hdr q; Body := Body q |}.

Definition with_Hdr (h : Header) (q : Request) : Request :=
  {| Method := Method q; Url := Url q; Hdr := h; Body := Body q |}.

(** The parts of the standard library that the builder only passes
    through: URL parsing, the check of the method token, the
    canonical form of a header key and the sanitised [name=value]
    text of a cookie. *)
Class Library : Type :=
  { url_Parse : string → error + URL;
    validMethod : string → bool;
    CanonicalMIMEHeaderKey : string → string;
    cookie_text : Cookie → string }.

Section WithLibrary.
Context `{Library}.

(** [h.Set(key, value)] *)
Definition Header_Set (key value : string) (h : Header) : Header :=
  <[CanonicalMIMEHeaderKey key := [value]]> h.

(** [h.Get(key)]: the first value, or the empty string. *)
Definition Header_Get (key : string) (h : Header) : string :=
  match h !! CanonicalMIMEHeaderKey key with
  | Some (v :: _) => v
  | _ => EmptyString
  end.

(** [http.NewRequest(method, uri, body)]: an empty method means
    GET; an invalid method or an unparsable URI is an error; the
    new request has no headers. *)
Definition NewRequest (method uri : string) (body : option BodyReader)
  : error + Request :=
  let method := if isEmpty method then "GET" else method in
  if negb (validMethod method)
  then inl (LibraryError "net/http" "invalid method")
  else match url_Parse uri with
       | inl e => inl e
       | inr u => inr {| Method := method; Url := u; Hdr := ∅; Body := body |}
       end.

(** [req.AddCookie(c)]: appended to the [Cookie] header, separated
    by a semicolon and a space from what is already there. *)
Definition AddCookie (c : Cookie) (q : Request) : Request :=
  let s := cookie_text c in
  let old := Header_Get "Cookie" (Hdr q) in
  if isEmpty old then with_Hdr (Header_Set "Cookie" s (Hdr q)) q
  else with_Hdr (Header_Set "Cookie" (old +:+ "; " +:+ s) (Hdr q)) q.

End WithLibrary.

(** [*http.Response], as far as the builder is concerned. *)
Record Response : Type := { StatusCode : nat; Payload : string }.

End http.

(** ** encoding/json

    [json.Marshal] works by reflection on arbitrary Go values; the
    builder only stores what it returns.  It is taken as an interface,
    together with the decoder and the notion of equivalence under which
    decoding inverts encoding. *)

Class Marshaler (A : Type) : Type :=
  json_Marshal : A → error + string.


(** ** The package: [Request], its configuration calls and dispatch *)

Module www.

(** The two revisions of [request.go].  They differ in what a
    short-circuited dispatch reports and in when [AttachFiles] closes
    the files it was given. *)
Inductive Revision : Type := Rev1 | Rev2.

(** Modelled from the spec: [StandardClient], the injected HTTP
    client, declared elsewhere in the package; it exposes one
    operation, sending a request and returning a response and an
    error. *)
Record StandardClient : Type :=
  { client_Do : http.Request → option http.Response * option error }.

(** Modelled from the spec: [Response], declared elsewhere in the
    package: the transport response, a possible error and the cache
    of the content read so far. *)
Record Response : Type :=
  { Response_http : option http.Response;
    resp_err : option error;
    resp_content : option string }.

(** What happens outside the builder: the requests handed to the
    client, in order, and the readers that were closed, in order. *)
Record World : Type :=
  { sent : list http.Request; closed_readers : list BodyReader }.

Definition log_sent (q : http.Request) (w : World) : World :=
  {| sent := sent w ++ [q]; closed_readers := closed_readers w |}.

(** Modelled from the spec: [closeReader], declared elsewhere in the
    package: closes the reader it is given, if there is one. *)
Definition closeReader (rd : option BodyReader) (w : World) : World :=
  match rd with
  | None => w
  | Some rd => {| sent := sent w; closed_readers := closed_readers w ++ [rd] |}
  end.

(** Modelled from the spec: [CreateFormFile], declared elsewhere in
    the package: starts a file part with the given field name, file
    name and content type on the envelope writer. *)
Definition CreateFormFile (w : multipart.Writer) (fieldname filename : string)
    (contentType : list string) : multipart.Writer * option error :=
  (multipart.add_part (multipart.FilePart fieldname filename contentType EmptyString) w,
   None).

Record Request : Type :=
  { Request_http : option http.Request;    (* the embedded [*http.Request] *)
    client : StandardClient;
    err : option error;
    body : option BodyReader;
    params : string;
    mime : string;
    cookies : list http.Cookie }.

Definition set_http (q : option http.Request) (r : Request) : Request :=
  {| Request_http := q; client := client r; err := err r; body := body r;
     params := params r; mime := mime r; cookies := cookies r |}.

Definition set_err (e : option error) (r : Request) : Request :=
  {| Request_http := Request_http r; client := client r; err := e; body := body r;
     params := params r; mime := mime r; cookies := cookies r |}.

Definition set_body (b : option BodyReader) (r : Request) : Request :=
  {| Request_http := Request_http r; client := client r; err := err r; body := b;
     params := params r; mime := mime r; cookies := cookies r |}.

Definition set_params (p : string) (r : Request) : Request :=
  {| Request_http := Request_http r; client := client r; err := err r; body := body r;
     params := p; mime := mime r; cookies := cookies r |}.

Definition set_mime (m : string) (r : Request) : Request :=
  {| Request_http := Request_http r; client := client r; err := err r; body := body r;
     params := params r; mime := m; cookies := cookies r |}.

Definition set_cookies (cs : list http.Cookie) (r : Request) : Request :=
  {| Request_http := Request_http r; client := client r; err := err r; body := body r;
     params := params r; mime := mime r; cookies := cs |}.

Definition NewRequest (client : StandardClient) : Request :=
  {| Request_http := None; client := client; err := None; body := None;
     params := EmptyString; mime := EmptyString; cookies := [] |}.

Definition Error (r : Request) : option error := err r.

Definition Headers (r : Request) : http.Header :=
  match Request_http r with
  | Some q => http.Hdr q
  | None => ∅
  end.

(** *** Configuration calls *)

Definition SetCookies (cookies : list http.Cookie) (r : Request) : Request :=
  set_cookies cookies r.

Definition With (params data : url.Values) (r : Request) : Request :=
  let r := set_params (url.Encode params) r in
  let r := set_body (Some (strings_NewReader (url.Encode data))) r in
  set_mime "application/x-www-form-urlencoded" r.

Definition WithQuery (params : url.Values) (r : Request) : Request :=
  set_params (url.Encode params) r.

Definition WithForm (data : url.Values) (r : Request) : Request :=
  let r := set_mime "application/x-www-form-urlencoded" r in
  set_body (Some (strings_NewReader (url.Encode data))) r.

Definition Json {A} `{Marshaler A} (data : A) (r : Request) : Request :=
  match json_Marshal data with
  | inl e => set_err (Some e) r
  | inr b =>
      let r := set_mime "application/json" r in
      set_body (Some (bytes_NewReader b)) r
  end.

Definition JSON {A} `{Marshaler A} (data : A) (r : Request) : Request :=
  Json data r.


(** [AttachFile]: the local [err] is still [nil] when the reader
    turns out not to be a file. *)
Definition AttachFile (boundary : string) (reader : Reader) (contentType : list string)
    (r : Request) (w : World) : Request * World :=
  let err : option error := None in
  match as_File reader with
  | None => (set_err err r, w)
  | Some name =>
      let deferred := closeReader (Some (caller_Reader reader)) in
      let fileName := filepath.Base name in
      let writer := multipart.NewWriter boundary in
      match CreateFormFile writer "file" fileName contentType with
      | (_, Some e) => (set_err (Some e) r, deferred w)
      | (writer, None) =>
          match multipart.Copy writer (source_of reader) with
          | (_, Some e) => (set_err (Some e) r, deferred w)
          | (writer, None) =>
              let r := set_mime (multipart.FormDataContentType writer) r in
              let writer := multipart.Close writer in
              (set_body (Some (multipart_Buffer writer)) r, deferred w)
          end
      end
  end.

(** *** [AttachFiles]

    The variables that live across the iterations of the loop:
    [r.err], the [contentType] local (declared once, before the
    loop), the envelope writer and the files to close. *)
Record Loop : Type :=
  { l_err : option error;
    l_contentType : string;
    l_writer : multipart.Writer;
    l_files : list Reader }.

Definition loop_err (e : error) (st : Loop) : Loop :=
  {| l_err := Some e; l_contentType := l_contentType st;
     l_writer := l_writer st; l_files := l_files st |}.

Definition loop_contentType (ct : string) (st : Loop) : Loop :=
  {| l_err := l_err st; l_contentType := ct;
     l_writer := l_writer st; l_files := l_files st |}.

Definition loop_writer (wr : multipart.Writer) (st : Loop) : Loop :=
  {| l_err := l_err st; l_contentType := l_contentType st;
     l_writer := wr; l_files := l_files st |}.

Definition loop_file (f : Reader) (st : Loop) : Loop :=
  {| l_err := l_err st; l_contentType := l_contentType st;
     l_writer := l_writer st; l_files := l_files st ++ [f] |}.

(** How one iteration ends: [continue] (or falling off the end of
    the body), or [return r]. *)
Inductive Step : Type :=
| Continue (st : Loop)
| Return (st : Loop).

(** [io.Copy(part, reader)] and the check that follows it. *)
Definition copy_field (reader : Reader) (st : Loop) : Step :=
  match multipart.Copy (l_writer st) (source_of reader) with
  | (wr, Some e) => Continue (loop_err e (loop_writer wr st))
  | (wr, None) => Continue (loop_writer wr st)
  end.

(** The body of the loop over [files], for one [field, values]. *)
Definition attach_field (st : Loop) (entry : string * list Value) : Step :=
  let '(field, values) := entry in
  match values with
  | [] => Return (loop_err ErrorEmptyListValues st)
  | v0 :: more =>
      match as_Reader v0 with
      | None => Continue (loop_err (errors_New "value is not an interface io.Reader") st)
      | Some reader =>
          let '(contentType, ok) :=
            match more with
            | [] => (l_contentType st, true)
            | v1 :: _ => as_string v1
            end in
          let st := loop_contentType contentType st in
          if negb ok then Continue (loop_err (errors_New "value is not a string") st)
          else
            match as_File reader with
            | Some name =>
                let fileName := filepath.Base name in
                let st := loop_file reader st in
                match CreateFormFile (l_writer st) field fileName [contentType] with
                | (wr, Some e) => Continue (loop_err e (loop_writer wr st))
                | (wr, None) => copy_field reader (loop_writer wr st)
                end
            | None =>
                match multipart.CreateFormField (l_writer st) field with
                | (wr, Some e) => Continue (loop_err e (loop_writer wr st))
                | (wr, None) => copy_field reader (loop_writer wr st)
                end
            end
      end
  end.

(** [for field, values := range files]: [files] is the map in the
    order in which the loop happens to visit it. *)
Fixpoint attach_loop (st : Loop) (files : list (string * list Value)) : Step :=
  match files with
  | [] => Continue st
  | entry :: rest =>
      match attach_field st entry with
      | Continue st' => attach_loop st' rest
      | Return st' => Return st'
      end
  end.

Definition close_all (files : list Reader) (w : World) : World :=
  fold_left (λ w f, closeReader (Some (caller_Reader f)) w) files w.

(** [Rev1] collects the files and closes them after the loop, so not
    on the early return; [Rev2] defers each close, so they all run,
    last file first, however the function is left. *)
Definition AttachFiles (rev : Revision) (boundary : string)
    (files : list (string * list Value)) (r : Request) (w : World) : Request * World :=
  let st0 := {| l_err := err r; l_contentType := EmptyString;
                l_writer := multipart.NewWriter boundary; l_files := [] |} in
  match attach_loop st0 files with
  | Return st =>
      (set_err (l_err st) r,
       match rev with Rev1 => w | Rev2 => close_all (reverse (l_files st)) w end)
  | Continue st =>
      let r := set_err (l_err st) r in
      let r := set_mime (multipart.FormDataContentType (l_writer st)) r in
      let writer := multipart.Close (l_writer st) in
      let r := set_body (Some (multipart_Buffer writer)) r in
      (r, close_all (match rev with
                     | Rev1 => l_files st
                     | Rev2 => reverse (l_files st)
                     end) w)
  end.

(** *** Dispatch *)

(** A call either returns or panics (index out of range, nil
    pointer dereference). *)
Inductive Outcome (A : Type) : Type :=
| Returns (a : A)
| Panics (msg : string).
Arguments Returns {A} a.
Arguments Panics {A} msg.

Section Dispatch.
Context `{http.Library}.

(** [for key, val := range headers[0] { r.Request.Header.Set(key, val[0]) }] *)
Fixpoint set_headers (entries : list (string * list string)) (h : http.Header)
  : Outcome http.Header :=
  match entries with
  | [] => Returns h
  | (key, val) :: rest =>
      match val with
      | [] => Panics "index out of range"
      | v :: _ => set_headers rest (http.Header_Set key v h)
      end
  end.

(** [headers] is the variadic list of header maps, each in the
    order in which its loop visits it. *)
Definition prepareRequest (method uri : string)
    (headers : list (list (string * list string))) (r : Request) : Outcome Request :=
  match http.NewRequest method uri (body r) with
  | inl e => Returns (set_err (Some e) (set_http None r))
  | inr q =>
      let q := http.with_Url (http.set_RawQuery (params r) (http.Url q)) q in
      let q := if isEmpty (mime r) then q
               else http.with_Hdr (http.Header_Set "Content-Type" (mime r) (http.Hdr q)) q in
      match headers with
      | [] => Returns (set_http (Some q) r)
      | first :: _ =>
          match set_headers first (http.Hdr q) with
          | Panics m => Panics m
          | Returns h => Returns (set_http (Some (http.with_Hdr h q)) r)
          end
      end
  end.

(** [r.Request.AddCookie(cookie)] for each pending cookie; with no
    request (after a failed [prepareRequest]) the first cookie
    dereferences nil. *)
Definition prepareCookies (r : Request) : Outcome Request :=
  match cookies r with
  | [] => Returns r
  | _ :: _ =>
      match Request_http r with
      | None => Panics "nil pointer dereference"
      | Some q =>
          Returns (set_http (Some (fold_left (λ q c, http.AddCookie c q) (cookies r) q)) r)
      end
  end.

(** The response of a dispatch that did not reach the client:
    [Rev1] reports the recorded error, [Rev2] reports nothing. *)
Definition short_circuit (rev : Revision) (e : error) : Response :=
  match rev with
  | Rev1 => {| Response_http := None; resp_err := Some e; resp_content := None |}
  | Rev2 => {| Response_http := None; resp_err := None; resp_content := None |}
  end.

(** [Do]: the deferred [closeReader(r.body)] runs on every way out. *)
Definition Do (rev : Revision) (method uri : string)
    (headers : list (list (string * list string))) (r : Request) (w : World)
  : Outcome (Response * Request) * World :=
  let deferred := closeReader (body r) in
  match err r with
  | Some e => (Returns (short_circuit rev e, r), deferred w)
  | None =>
      match prepareRequest method uri headers r with
      | Panics m => (Panics m, deferred w)
      | Returns r =>
          match prepareCookies r with
          | Panics m => (Panics m, deferred w)
          | Returns r =>
              match err r with
              | Some e => (Returns (short_circuit rev e, r), deferred w)
              | None =>
                  match Request_http r with
                  | None => (Panics "nil pointer dereference", deferred w)
                  | Some q =>
                      let '(resp, e) := client_Do (client r) q in
                      (Returns ({| Response_http := resp; resp_err := e;
                                   resp_content := None |}, r),
                       deferred (log_sent q w))
                  end
              end
          end
      end
  end.

Definition Get rev uri headers := Do rev "GET" uri headers.
Definition Post rev uri headers := Do rev "POST" uri headers.
Definition Put rev uri headers := Do rev "PUT" uri headers.
Definition Patch rev uri headers := Do rev "PATCH" uri headers.
Definition Delete rev uri headers := Do rev "DELETE" uri headers.
Definition Head rev uri := Do rev "HEAD" uri [].
Definition Trace rev uri := Do rev "TRACE" uri [].
Definition Options rev uri := Do rev "OPTIONS" uri [].
Definition Connect rev uri := Do rev "CONNECT" uri [].

End Dispatch.

End www.

(** ** What the specification says of [AttachFiles], as functions of
    the field mapping alone *)

Module www_spec.
Import www.

(** The error one field gives rise to: a type mismatch (the value is
    not a byte source, the content type is not a string) or the
    failure of the copy. *)
Definition field_error (values : list Value) : option error :=
  match values with
  | [] => Some ErrorEmptyListValues
  | v0 :: more =>
      match as_Reader v0 with
      | None => Some (errors_New "value is not an interface io.Reader")
      | Some reader =>
          match more with
          | v1 :: _ =>
              if (as_string v1).2 then failure (source_of reader)
              else Some (errors_New "value is not a string")
          | [] => failure (source_of reader)
          end
      end
  end.

(** Last error wins: the error recorded after all fields were
    visited, starting from the one recorded before the call.  A field
    without values ends the call on the spot. *)
Fixpoint last_field_error (recorded : option error)
    (files : list (string * list Value)) : option error :=
  match files with
  | [] => recorded
  | (_, values) :: rest =>
      match values with
      | [] => Some ErrorEmptyListValues
      | _ :: _ =>
          last_field_error
            (match field_error values with Some e => Some e | None => recorded end)
            rest
      end
  end.

(** The part a field contributes to the envelope, as field name and
    bytes: none on a type mismatch, otherwise everything its source
    delivers. *)
Definition field_part (entry : string * list Value) : option (string * string) :=
  let '(field, values) := entry in
  match values with
  | [] => None
  | v0 :: more =>
      match as_Reader v0 with
      | None => None
      | Some reader =>
          match more with
          | v1 :: _ =>
              if (as_string v1).2 then Some (field, content (source_of reader)) else None
          | [] => Some (field, content (source_of reader))
          end
      end
  end.

Definition part_summary (p : multipart.Part) : string * string :=
  (multipart.part_field p, multipart.part_data p).

(** One iteration on a file: the part it opens carries the content type
    held by the [contentType] local once the field's own, if any, has
    been read into it. *)
Definition after_file (st : Loop) (field name : string) (src : Source) (ct : string) : Loop :=
  {| l_err := match failure src with Some e => Some e | None => l_err st end;
     l_contentType := ct;
     l_writer :=
       {| multipart.boundary := multipart.boundary (l_writer st);
          multipart.parts :=
            multipart.parts (l_writer st)
              ++ [multipart.FilePart field (filepath.Base name) [ct] (content src)];
          multipart.closed := multipart.closed (l_writer st) |};
     l_files := l_files st ++ [os_File name src] |}.


(** Setting each key to its first value, in visiting order. *)
Definition apply_headers `{http.Library} (h : list (string * list string))
    (hdr : http.Header) : http.Header :=
  fold_left (λ hdr e, http.Header_Set e.1 (hd EmptyString e.2) hdr) h hdr.

End www_spec.

(** ** A small instance of the collaborators, to run the model *)

Module sample.
Import www.

(** A parser that splits at the first question mark and rejects
    spaces; a method is valid when it is not empty and has no space;
    header keys are left as they are. *)
#[export] Instance library : http.Library :=
  {| http.url_Parse uri :=
       if ContainsByte " " uri
       then inl (LibraryError "net/url" "invalid character in URL")
       else let '(path, query, _) := Cut "?" uri in
            inr {| http.Scheme := EmptyString; http.Host := EmptyString;
                   http.Path := path; http.RawQuery := query;
                   http.Fragment := EmptyString |};
     http.validMethod m := negb (isEmpty m) && negb (ContainsByte " " m);
     http.CanonicalMIMEHeaderKey k := k;
     http.cookie_text c := http.Name c +:+ "=" +:+ http.Value c |}.

(** A client that answers 200 to everything. *)
Definition client : StandardClient :=
  {| client_Do _ := (Some {| http.StatusCode := 200; http.Payload := "ok" |}, None) |}.

Definition world : World := {| sent := []; closed_readers := [] |}.

(** A fragment of what [json.Marshal] accepts and refuses. *)
Inductive Data : Type :=
| data_nil
| data_bool (b : bool)
| data_chan.

#[export] Instance data_Marshaler : Marshaler Data :=
  λ d, match d with
       | data_nil => inr "null"
       | data_bool true => inr "true"
       | data_bool false => inr "false"
       | data_chan => inl (LibraryError "encoding/json" "unsupported type: chan int")
       end.



Definition unsupported : error :=
  LibraryError "encoding/json" "unsupported type: chan int".

(** A builder on which a failed [Json] call has recorded its error. *)
Definition failed : Request := Json data_chan (NewRequest client).

Definition report : Source := {| content := "hello"; failure := None |}.
Definition broken : Source :=
  {| content := "par"; failure := Some (LibraryError "io" "unexpected EOF") |}.

Definition query : url.Values :=
  <["tag" := ["a b"; "c&d"]]> {["q" := ["x=1"]]}.

(** A file with a content type, a value that is no reader, a file
    whose copy fails, and a plain value. *)
Definition mixed_fields : list (string * list Value) :=
  [("doc", [go_Reader (os_File "/tmp/report.txt" report); go_string "text/plain"]);
   ("bad", [go_other]);
   ("cut", [go_Reader (os_File "/tmp/cut.bin" broken)]);
   ("note", [go_Reader (plain_Reader report)])].

End sample.

(** ** Further views of the builder, as functions of its inputs *)

Module www_more.
Import www.

(** The file a field hands to [AttachFiles] for closing: its reader,
    when the values pass the type checks and the reader is a file. *)
Definition field_file (entry : string * list Value) : option Reader :=
  match entry.2 with
  | [] => None
  | v0 :: more =>
      match as_Reader v0 with
      | None => None
      | Some reader =>
          let ok := match more with [] => true | v1 :: _ => (as_string v1).2 end in
          if ok then (match as_File reader with Some _ => Some reader | None => None end)
          else None
      end
  end.

(** The content type a field leaves behind for the fields visited
    after it: its own second value when the first one is a reader (the
    empty string when that second value is not a string), otherwise the
    one it found. *)
Definition field_contentType (ct : string) (entry : string * list Value) : string :=
  match entry.2 with
  | [] => ct
  | v0 :: more =>
      match as_Reader v0 with
      | None => ct
      | Some _ => match more with [] => ct | v1 :: _ => (as_string v1).1 end
      end
  end.

Definition carried_contentType (files : list (string * list Value)) : string :=
  fold_left field_contentType files EmptyString.

(** Cookie texts joined by a semicolon and a space. *)
Fixpoint join_cookies (texts : list string) : string :=
  match texts with
  | [] => EmptyString
  | [t] => t
  | t :: rest => t +:+ "; " +:+ join_cookies rest
  end.

Section WithLibrary.
Context `{http.Library}.

(** The request that [prepareRequest] and [prepareCookies] make of
    what [http.NewRequest] returned. *)
Definition built_request (headers : list (list (string * list string)))
    (r : Request) (q0 : http.Request) : http.Request :=
  let q := http.with_Url (http.set_RawQuery (params r) (http.Url q0)) q0 in
  let q := if isEmpty (mime r) then q
           else http.with_Hdr (http.Header_Set "Content-Type" (mime r) (http.Hdr q)) q in
  let q := match headers with
           | [] => q
           | first :: _ => http.with_Hdr (www_spec.apply_headers first (http.Hdr q)) q
           end in
  fold_left (λ q c, http.AddCookie c q) (cookies r) q.

(** The response that wraps what the client answered. *)
Definition wrap_response (answer : option http.Response * option error) : Response :=
  {| Response_http := answer.1; resp_err := answer.2; resp_content := None |}.

End WithLibrary.

End www_more.

Module sample_more.
Import www.

Definition session : list http.Cookie :=
  [{| http.Name := "sid"; http.Value := "1" |};
   {| http.Name := "lang"; http.Value := "en" |}].

Definition form : url.Values := {["name" := ["Ann Lee"]]}.

Definition accept : list (string * list string) :=
  [("Accept", ["text/html"; "text/plain"]); ("Content-Type", ["text/csv"])].

(** A file, a field without values, and a file the loop never reaches. *)
Definition cut_short : list (string * list Value) :=
  [("doc", [go_Reader (os_File "/tmp/report.txt" sample.report)]);
   ("f", []);
   ("late", [go_Reader (os_File "/tmp/late.txt" sample.report)])].

Definition page : http.URL :=
  {| http.Scheme := EmptyString; http.Host := EmptyString;
     http.Path := "http://example.test/x"; http.RawQuery := "old=1";
     http.Fragment := EmptyString |}.

Definition rejected : error := LibraryError "net/url" "invalid character in URL".

(** A builder with pending cookies that holds a request without headers. *)
Definition holding : Request :=
  set_http (Some {| http.Method := "GET"; http.Url := page; http.Hdr := ∅;
                    http.Body := None |})
    (SetCookies session (NewRequest sample.client)).

End sample_more.

(** * Properties *)

(** ** Facts about Go strings *)

Module GoStringFacts.

Lemma sapp_cons c s t : String c s +:+ t = String c (s +:+ t).
Proof. reflexivity. Qed.

Lemma sapp_nil_l s : EmptyString +:+ s = s.
Proof. reflexivity. Qed.

Lemma sapp_nil_r s : s +:+ EmptyString = s.
Proof. induction s as [|c s IH]; [reflexivity|]. rewrite sapp_cons. by f_equal. Qed.

Lemma sapp_assoc s t u : s +:+ (t +:+ u) = (s +:+ t) +:+ u.
Proof. induction s as [|c s IH]; [reflexivity|]. rewrite !sapp_cons. by f_equal. Qed.

Lemma ContainsByte_app c s t :
  ContainsByte c (s +:+ t) = ContainsByte c s || ContainsByte c t.
Proof.
  induction s as [|d s IH]; [reflexivity|].
  rewrite sapp_cons. simpl. by destruct (Ascii.eqb d c).
Qed.

Lemma Cut_app sep s t :
  ContainsByte sep s = false →
  Cut sep (s +:+ String sep t) = (s, t, true).
Proof.
  induction s as [|d s IH]; intros Hs.
  - rewrite sapp_nil_l. simpl. by rewrite Ascii.eqb_refl.
  - rewrite sapp_cons. simpl in *.
    destruct (Ascii.eqb d sep); [done|]. by rewrite IH.
Qed.

Lemma isEmpty_app s t : isEmpty (s +:+ t) = isEmpty s && isEmpty t.
Proof. by destruct s. Qed.

End GoStringFacts.
Import GoStringFacts.

(** ** net/url: unescaping inverts escaping *)

Module url_facts.
Import url url_aux.

Lemma QueryUnescape_escape_byte c rest :
  QueryUnescape (escape_byte c +:+ rest) =
  match QueryUnescape rest with
  | inl e => inl e
  | inr t => inr (String c t)
  end.
Proof. destruct c as [[] [] [] [] [] [] [] []]; reflexivity. Qed.

Lemma QueryUnescape_QueryEscape s : QueryUnescape (QueryEscape s) = inr s.
Proof.
  induction s as [|c s IH]; [reflexivity|].
  cbn [QueryEscape]. by rewrite QueryUnescape_escape_byte, IH.
Qed.

(** The separators of a query string never survive escaping. *)
Lemma escape_byte_no_separator sep c :
  is_separator sep = true → ContainsByte sep (escape_byte c) = false.
Proof.
  intros Hsep.
  assert (sep = "&" ∨ sep = "=" ∨ sep = ";")%char as [->|[->| ->]].
  { unfold is_separator in Hsep.
    apply orb_true_iff in Hsep as [Hsep|Hsep];
      [apply orb_true_iff in Hsep as [Hsep|Hsep]|];
      apply Ascii.eqb_eq in Hsep; auto. }
  all: destruct c as [[] [] [] [] [] [] [] []]; reflexivity.
Qed.

Lemma QueryEscape_no_separator sep s :
  is_separator sep = true → ContainsByte sep (QueryEscape s) = false.
Proof.
  intros Hsep. induction s as [|c s IH]; [reflexivity|].
  cbn [QueryEscape]. rewrite ContainsByte_app, IH.
  by rewrite escape_byte_no_separator.
Qed.

Import url_aux.

(** *** The text written by [Encode] *)

Lemma encode_values_pieces k vs buf :
  encode_values (QueryEscape k) vs buf =
  fold_left write_piece (pair_text <$> ((λ x, (k, x)) <$> vs)) buf.
Proof.
  unfold encode_values. revert buf.
  induction vs as [|v vs IH]; intros buf; [reflexivity|].
  cbn [fold_left fmap list_fmap]. by rewrite IH.
Qed.

Lemma Encode_pieces v :
  Encode v = fold_left write_piece (pair_text <$> pairs_of v (sorted_keys v)) EmptyString.
Proof.
  unfold Encode, pairs_of. generalize (sorted_keys v) as keys. generalize EmptyString as buf.
  intros buf keys. revert buf.
  induction keys as [|k keys IH]; intros buf; [reflexivity|].
  cbn [fold_left]. rewrite bind_cons, fmap_app, fold_left_app.
  by rewrite IH, encode_values_pieces.
Qed.

Lemma write_pieces_nonempty ts buf :
  isEmpty buf = false →
  fold_left write_piece ts buf = buf +:+ amp_concat ts.
Proof.
  revert buf. induction ts as [|t ts IH]; intros buf Hbuf.
  - cbn. by rewrite sapp_nil_r.
  - cbn [fold_left amp_concat foldr]. unfold write_piece at 2. rewrite Hbuf.
    rewrite IH.
    + by rewrite !sapp_assoc.
    + rewrite !isEmpty_app, Hbuf. reflexivity.
Qed.

(** *** The segments read back by [ParseQuery] *)

Lemma segments_app cur s rest :
  ContainsByte "&" s = false →
  segments cur (s +:+ rest) = segments (cur +:+ s) rest.
Proof.
  revert cur. induction s as [|c s IH]; intros cur Hs.
  - by rewrite sapp_nil_l, sapp_nil_r.
  - rewrite sapp_cons. cbn in *.
    destruct (Ascii.eqb c "&"); [done|].
    rewrite IH by done. f_equal.
    by rewrite <- sapp_assoc.
Qed.

Lemma segments_amp_concat cur ts :
  isEmpty cur = false → Forall piece_ok ts →
  segments cur (amp_concat ts) = cur :: ts.
Proof.
  intros Hcur Hts. revert cur Hcur.
  induction Hts as [|t ts [Ht1 Ht2] _ IH]; intros cur Hcur.
  - cbn. by rewrite Hcur.
  - cbn [amp_concat foldr]. rewrite sapp_cons, sapp_nil_l.
    cbn [segments]. rewrite Ascii.eqb_refl. f_equal.
    rewrite segments_app by done. rewrite sapp_nil_l. by apply IH.
Qed.

Lemma segments_written ts :
  Forall piece_ok ts →
  segments EmptyString (fold_left write_piece ts EmptyString) = ts.
Proof.
  intros Hts. destruct Hts as [|t ts [Ht1 Ht2] Hts]; [reflexivity|].
  cbn [fold_left]. unfold write_piece at 2. cbn [isEmpty]. rewrite sapp_nil_l.
  rewrite write_pieces_nonempty by done.
  rewrite segments_app by done. rewrite sapp_nil_l.
  by apply segments_amp_concat.
Qed.

Lemma pair_text_ok kv : piece_ok (pair_text kv).
Proof.
  unfold piece_ok, pair_text. split.
  - rewrite !isEmpty_app. cbn. by rewrite andb_false_r.
  - rewrite !ContainsByte_app, !QueryEscape_no_separator by reflexivity.
    reflexivity.
Qed.

Lemma parse_segment_pair m kv :
  parse_segment (m, None) (pair_text kv) = (add_pair m kv, None).
Proof.
  destruct (pair_text_ok kv) as [Hne _].
  unfold parse_segment. rewrite Hne.
  assert (ContainsByte ";" (pair_text kv) = false) as ->.
  { unfold pair_text.
    rewrite !ContainsByte_app, !QueryEscape_no_separator by reflexivity.
    reflexivity. }
  unfold pair_text. change ("=" +:+ ?x) with (String "=" x).
  rewrite Cut_app by (by apply QueryEscape_no_separator).
  by rewrite !QueryUnescape_QueryEscape.
Qed.

Lemma parse_segments_pairs ps m :
  fold_left parse_segment (pair_text <$> ps) (m, None) =
  (fold_left add_pair ps m, None).
Proof.
  revert m. induction ps as [|kv ps IH]; intros m; [reflexivity|].
  cbn [fmap list_fmap fold_left]. by rewrite parse_segment_pair, IH.
Qed.

(** *** The map rebuilt from the pairs *)

Lemma add_values_lookup k vs (m : Values) k' :
  fold_left add_pair ((λ x, (k, x)) <$> vs) m !! k' =
  if decide (k' = k ∧ vs ≠ []) then Some (default [] (m !! k) ++ vs) else m !! k'.
Proof.
  revert m. induction vs as [|v vs IH]; intros m.
  - cbn. case_decide as H; [by destruct H|done].
  - cbn [fmap list_fmap fold_left]. rewrite IH.
    assert (add_pair m (k, v) !! k = Some (default [] (m !! k) ++ [v])) as Hk
      by apply lookup_insert_eq.
    rewrite Hk. cbn [from_option id].
    destruct (decide (k' = k)) as [->|Hne].
    + rewrite (decide_True (P := k = k ∧ v :: vs ≠ [])) by done.
      case_decide as H.
      * by rewrite <- app_assoc.
      * rewrite Hk. destruct vs; [done|]. destruct H. by split.
    + rewrite !decide_False by tauto.
      unfold add_pair. by rewrite lookup_insert_ne.
Qed.

Lemma add_pairs_lookup (v : Values) keys (m : Values) k :
  NoDup keys →
  fold_left add_pair (pairs_of v keys) m !! k =
  if decide (k ∈ keys ∧ default [] (v !! k) ≠ [])
  then Some (default [] (m !! k) ++ default [] (v !! k))
  else m !! k.
Proof.
  intros Hnd. revert m. induction Hnd as [|k0 keys Hk0 Hnd IH]; intros m.
  - cbn. case_decide as H; [|done]. destruct H as [H _]. by apply elem_of_nil in H.
  - unfold pairs_of in *. rewrite bind_cons, fold_left_app, IH.
    rewrite !add_values_lookup.
    pose proof (elem_of_cons keys k k0) as Hcons.
    destruct (decide (k = k0)) as [->|Hne];
      repeat case_decide; first [done | exfalso; tauto].
Qed.

Lemma sorted_keys_NoDup (v : Values) : NoDup (sorted_keys v).
Proof.
  unfold sorted_keys. rewrite merge_sort_Permutation.
  apply NoDup_fst_map_to_list.
Qed.

Lemma elem_of_sorted_keys (v : Values) k : k ∈ sorted_keys v ↔ is_Some (v !! k).
Proof.
  unfold sorted_keys. rewrite merge_sort_Permutation.
  rewrite list_elem_of_fmap. split.
  - intros [[k' vs] [-> H]]. apply elem_of_map_to_list in H. by exists vs.
  - intros [vs H]. exists (k, vs). split; [done|]. by apply elem_of_map_to_list.
Qed.

(** Decoding what [Values.Encode] wrote gives the map back, with no
    error, provided no key carries an empty list. *)
Lemma ParseQuery_Encode (v : Values) :
  no_empty_list v → ParseQuery (Encode v) = (v, None).
Proof.
  intros Hv. unfold ParseQuery.
  rewrite Encode_pieces, segments_written.
  2:{ apply Forall_fmap, Forall_forall. intros kv _. apply pair_text_ok. }
  rewrite parse_segments_pairs. f_equal.
  apply map_eq. intros k.
  rewrite add_pairs_lookup by apply sorted_keys_NoDup.
  rewrite lookup_empty. cbn [default app].
  destruct (v !! k) as [vs|] eqn:Hk.
  - rewrite decide_True; [done|]. split.
    + apply elem_of_sorted_keys. by rewrite Hk.
    + cbn. by eapply Hv.
  - rewrite decide_False; [done|]. intros [H _].
    apply elem_of_sorted_keys in H. rewrite Hk in H. by destruct H.
Qed.

End url_facts.

(** ** The loop of [AttachFiles] *)

Module attach_facts.
Import www www_spec.

Lemma Copy_last wr p src :
  multipart.Copy (multipart.add_part p wr) src =
  ({| multipart.boundary := multipart.boundary wr;
      multipart.parts := multipart.parts wr ++ [multipart.part_write (content src) p];
      multipart.closed := multipart.closed wr |}, failure src).
Proof.
  unfold multipart.Copy, multipart.add_part. cbn [multipart.parts].
  rewrite reverse_snoc. cbn [multipart.boundary multipart.closed].
  by rewrite reverse_involutive.
Qed.

(** What one iteration over a field with at least one value leaves
    behind: it never returns, it records the field's own error if
    there is one, and it adds the field's part if there is one. *)
Lemma attach_field_continue st field v0 more :
  ∃ st',
    attach_field st (field, v0 :: more) = Continue st' ∧
    l_err st' = match field_error (v0 :: more) with
                | Some e => Some e
                | None => l_err st
                end ∧
    part_summary <$> multipart.parts (l_writer st') =
      (part_summary <$> multipart.parts (l_writer st))
        ++ option_list (field_part (field, v0 :: more)) ∧
    multipart.boundary (l_writer st') = multipart.boundary (l_writer st) ∧
    multipart.closed (l_writer st') = multipart.closed (l_writer st).
Proof.
  unfold attach_field, field_error, field_part.
  destruct v0 as [reader| |]; cbn [as_Reader];
    try (eexists; split; [reflexivity|]; cbn; by rewrite app_nil_r).
  destruct more as [|[ |ct| ] more']; cbn [as_string negb snd];
    try (eexists; split; [reflexivity|]; cbn; by rewrite app_nil_r).
  all: destruct reader as [name src|src]; cbn [as_File source_of];
    unfold CreateFormFile, multipart.CreateFormField, copy_field;
    cbn [l_writer loop_writer loop_file loop_contentType];
    rewrite Copy_last; cbn [content failure source_of];
    destruct (failure src) as [e|];
    (eexists; split; [reflexivity|]); cbn;
    rewrite fmap_app; cbn; unfold part_summary; cbn; done.
Qed.

(** With no empty value list in sight the loop visits every field. *)
Lemma attach_loop_continue files : ∀ st,
  Forall (λ entry, entry.2 ≠ []) files →
  ∃ st',
    attach_loop st files = Continue st' ∧
    l_err st' = last_field_error (l_err st) files ∧
    part_summary <$> multipart.parts (l_writer st') =
      (part_summary <$> multipart.parts (l_writer st)) ++ omap field_part files ∧
    multipart.boundary (l_writer st') = multipart.boundary (l_writer st) ∧
    multipart.closed (l_writer st') = multipart.closed (l_writer st).
Proof.
  induction files as [|[field values] files IH]; intros st Hne.
  - exists st. cbn. by rewrite app_nil_r.
  - apply Forall_cons in Hne as [Hv Hne]. cbn [snd] in Hv.
    destruct values as [|v0 more]; [done|].
    destruct (attach_field_continue st field v0 more)
      as (st1 & Hstep & Herr & Hparts & Hb & Hc).
    destruct (IH st1 Hne) as (st' & Hloop & Herr' & Hparts' & Hb' & Hc').
    exists st'. cbn [attach_loop]. rewrite Hstep. split; [done|].
    cbn [last_field_error]. rewrite Herr', Herr.
    split; [done|]. split; [|split; congruence].
    rewrite Hparts', Hparts. cbn [omap list_omap].
    rewrite <- app_assoc. f_equal.
    by destruct (field_part (field, v0 :: more)).
Qed.

(** A field without values ends the loop with the sentinel error,
    whatever came before it. *)
Lemma attach_loop_return files : ∀ st,
  Exists (λ entry, entry.2 = []) files →
  ∃ st', attach_loop st files = Return st' ∧ l_err st' = Some ErrorEmptyListValues.
Proof.
  induction files as [|[field values] files IH]; intros st Hex.
  - by apply Exists_nil in Hex.
  - destruct values as [|v0 more].
    + eexists. cbn. split; reflexivity.
    + apply Exists_cons in Hex as [Hex|Hex]; [done|].
      destruct (attach_field_continue st field v0 more) as (st1 & Hstep & _).
      destruct (IH st1 Hex) as (st' & Hloop & Herr).
      exists st'. cbn [attach_loop]. by rewrite Hstep.
Qed.


Lemma attach_field_file_with_type st field name src ct rest :
  attach_field st (field, go_Reader (os_File name src) :: go_string ct :: rest) =
  Continue (after_file st field name src ct).
Proof.
  unfold attach_field, after_file, CreateFormFile, copy_field.
  cbn [as_Reader as_string negb as_File source_of
       l_writer l_err l_contentType l_files loop_writer loop_file loop_contentType].
  rewrite Copy_last. cbn [multipart.part_write]. by destruct (failure src).
Qed.

Lemma attach_field_file_without_type st field name src :
  attach_field st (field, [go_Reader (os_File name src)]) =
  Continue (after_file st field name src (l_contentType st)).
Proof.
  unfold attach_field, after_file, CreateFormFile, copy_field.
  cbn [as_Reader negb as_File source_of
       l_writer l_err l_contentType l_files loop_writer loop_file loop_contentType].
  rewrite Copy_last. cbn [multipart.part_write]. by destruct (failure src).
Qed.

End attach_facts.

(** ** Dispatch *)

Module dispatch_facts.
Import www www_spec.

Section WithLibrary.
Context `{http.Library}.


Lemma set_headers_total entries : ∀ h,
  Forall (λ entry, entry.2 ≠ []) entries →
  set_headers entries h = Returns (apply_headers entries h).
Proof.
  induction entries as [|[key val] entries IH]; intros h Hne; [reflexivity|].
  apply Forall_cons in Hne as [Hv Hne]. cbn [snd] in Hv.
  destruct val as [|v val]; [done|]. cbn. by apply IH.
Qed.

Lemma AddCookie_Url c q : http.Url (http.AddCookie c q) = http.Url q.
Proof. unfold http.AddCookie. by case (isEmpty _). Qed.

Lemma AddCookies_Url cs : ∀ q,
  http.Url (fold_left (λ q c, http.AddCookie c q) cs q) = http.Url q.
Proof.
  induction cs as [|c cs IH]; intros q; [reflexivity|].
  cbn [fold_left]. by rewrite IH, AddCookie_Url.
Qed.

(** [prepareCookies] keeps everything but the embedded request, and
    of that request it keeps the URL. *)
Lemma prepareCookies_some r q :
  Request_http r = Some q →
  ∃ q', prepareCookies r = Returns (set_http (Some q') r) ∧
        http.Url q' = http.Url q.
Proof.
  intros Hq. unfold prepareCookies. rewrite Hq.
  destruct (cookies r) as [|c cs] eqn:Hcs.
  - exists q. split; [|done]. f_equal. destruct r; cbn in *. by subst.
  - eexists. split; [reflexivity|]. apply AddCookies_Url.
Qed.

(** With a method and URI that [http.NewRequest] accepts and a first
    header map without empty value lists, [prepareRequest] builds the
    request and gives it the builder's query string. *)
Lemma prepareRequest_some method uri headers r q0 :
  http.NewRequest method uri (body r) = inr q0 →
  Forall (λ entry, entry.2 ≠ []) (hd [] headers) →
  ∃ q1, prepareRequest method uri headers r = Returns (set_http (Some q1) r) ∧
        http.RawQuery (http.Url q1) = params r.
Proof.
  intros Hnew Hh. unfold prepareRequest. rewrite Hnew.
  destruct headers as [|first others].
  - eexists. split; [reflexivity|]. by destruct (isEmpty (mime r)).
  - cbn [hd] in Hh. rewrite set_headers_total by done.
    eexists. split; [reflexivity|]. by destruct (isEmpty (mime r)).
Qed.


End WithLibrary.

End dispatch_facts.

(** ** The model at work *)

Module examples.
Import www.

Example Encode_sorts_and_escapes :
  url.Encode sample.query = "q=x%3D1&tag=a+b&tag=c%26d".
Proof. vm_compute. reflexivity. Qed.

(** A key without values is not written, so it cannot be read back. *)
Example Encode_forgets_empty_list :
  url.Encode {["a" := []]} = EmptyString ∧
  url.ParseQuery (url.Encode {["a" := []]}) = (∅, None).
Proof. split; vm_compute; reflexivity. Qed.

Example QueryUnescape_truncated_escape :
  url.QueryUnescape "a%2" = inl (EscapeError "%2").
Proof. reflexivity. Qed.

Example ParseQuery_skips_empty_segments :
  url.segments EmptyString "a=1&&b=2&" = ["a=1"; EmptyString; "b=2"].
Proof. reflexivity. Qed.

Example Base_of_paths :
  filepath.Base "/tmp/report.txt" = "report.txt" ∧
  filepath.Base "up/b.bin//" = "b.bin" ∧
  filepath.Base "///" = "/" ∧
  filepath.Base EmptyString = ".".
Proof. repeat split. Qed.

(** The mixed mapping: the value that is no reader and the failed copy
    do not stop the plain value that comes last; the error left on the
    builder is that of the failed copy. *)
Example AttachFiles_mixed :
  let r := (AttachFiles Rev1 "xyz" sample.mixed_fields
              (NewRequest sample.client) sample.world).1 in
  Error r = Some (LibraryError "io" "unexpected EOF") ∧
  mime r = "multipart/form-data; boundary=xyz" ∧
  body r = Some (multipart_Buffer
                   {| multipart.boundary := "xyz";
                      multipart.parts :=
                        [multipart.FilePart "doc" "report.txt" ["text/plain"] "hello";
                         multipart.FilePart "cut" "cut.bin" ["text/plain"] "par";
                         multipart.ValuePart "note" "hello"];
                      multipart.closed := true |}).
Proof. repeat split. Qed.

(** The first revision leaves the files open on the early return, the
    second closes them. *)
Example AttachFiles_early_return_closes :
  let files := [("doc", [go_Reader (os_File "/tmp/report.txt" sample.report)]);
                ("f", [])] in
  closed_readers (AttachFiles Rev1 "xyz" files (NewRequest sample.client) sample.world).2
    = [] ∧
  closed_readers (AttachFiles Rev2 "xyz" files (NewRequest sample.client) sample.world).2
    = [caller_Reader (os_File "/tmp/report.txt" sample.report)].
Proof. split; reflexivity. Qed.

(** A plain dispatch: no body, no content type, one request sent. *)
Example Do_plain_get :
  let '(out, w) := Do (H := sample.library) Rev1 "GET" "http://example.test/x" []
                      (NewRequest sample.client) sample.world in
  ∃ resp r, out = Returns (resp, r) ∧
            (http.Body <$> Request_http r) = Some None ∧
            Headers r = ∅ ∧
            length (sent w) = 1.
Proof. vm_compute. eexists _, _. repeat split. Qed.

(** A header key without a value makes [val[0]] panic. *)
Example Do_panics_on_empty_header_values :
  (Do (H := sample.library) Rev1 "GET" "http://example.test/x" [[("Accept", [])]]
      (NewRequest sample.client) sample.world).1 = Panics "index out of range".
Proof. reflexivity. Qed.

(** After a failed [prepareRequest] there is no request to add the
    pending cookies to. *)
Example Do_panics_on_cookies_without_request :
  (Do (H := sample.library) Rev1 "GET" "http://example.test/a b" []
      (SetCookies [{| http.Name := "sid"; http.Value := "1" |}] (NewRequest sample.client))
      sample.world).1 = Panics "nil pointer dereference".
Proof. reflexivity. Qed.

End examples.

(** * The claims *)

Section Claims.
Import www www_spec url_aux.
Import attach_facts dispatch_facts url_facts.



(** C2. Short-circuit dispatch: with an error recorded on the
    builder, [Do] returns a response shell with no transport response
    and no content (in either revision; the first revision puts the
    recorded error in the shell, the second nothing), leaves the
    builder as it is, and hands no request to the client: the log of
    sent requests is unchanged. *)
Theorem Do_short_circuit `{http.Library} rev method uri headers r w e :
  err r = Some e →
  (Do rev method uri headers r w).1 = Returns (short_circuit rev e, r) ∧
  Response_http (short_circuit rev e) = None ∧
  resp_content (short_circuit rev e) = None ∧
  resp_err (short_circuit rev e) = match rev with Rev1 => Some e | Rev2 => None end ∧
  sent (Do rev method uri headers r w).2 = sent w.
Proof.
  intros He. unfold Do. rewrite He. cbn [fst snd].
  repeat split; try (by destruct rev).
  by destruct (body r).
Qed.

Lemma Do_short_circuit_witness :
  let r := sample.failed in
  err r = Some sample.unsupported ∧
  (Do (H := sample.library) Rev1 "GET" "http://example.test/x" [] r sample.world).1
    = Returns (short_circuit Rev1 sample.unsupported, r) ∧
  Response_http (short_circuit Rev1 sample.unsupported) = None ∧
  resp_content (short_circuit Rev1 sample.unsupported) = None ∧
  resp_err (short_circuit Rev1 sample.unsupported) = Some sample.unsupported ∧
  sent (Do (H := sample.library) Rev1 "GET" "http://example.test/x" [] r sample.world).2
    = sent sample.world.
Proof.
  split; [reflexivity|].
  apply (Do_short_circuit (H := sample.library) Rev1 "GET" "http://example.test/x" []
           sample.failed sample.world).
  reflexivity.
Defined.

(** C3. A field without values fails the whole call of [AttachFiles]
    with the sentinel [ErrorEmptyListValues], in whatever order the
    fields are visited; body and content type are not set by the
    call, so a body that was unset stays unset. *)
Theorem AttachFiles_empty_value_list rev boundary files r w :
  (∃ field, (field, []) ∈ files) →
  let r' := (AttachFiles rev boundary files r w).1 in
  Error r' = Some ErrorEmptyListValues ∧
  body r' = body r ∧ mime r' = mime r ∧
  (body r = None → body r' = None).
Proof.
  intros [field Hin]. cbn zeta. unfold AttachFiles.
  match goal with |- context [attach_loop ?st0 files] =>
    destruct (attach_loop_return files st0) as (st' & -> & Herr)
  end.
  { apply Exists_exists. by exists (field, []). }
  cbn. by rewrite Herr.
Qed.

Lemma AttachFiles_empty_value_list_witness :
  (∃ field, (field, []) ∈ [("f", @nil Value)]) ∧
  let r' := (AttachFiles Rev1 "xyz" [("f", [])] (NewRequest sample.client) sample.world).1 in
  Error r' = Some ErrorEmptyListValues ∧
  body r' = body (NewRequest sample.client) ∧
  mime r' = mime (NewRequest sample.client) ∧
  (body (NewRequest sample.client) = None → body r' = None).
Proof.
  assert (∃ field, (field, []) ∈ [("f", @nil Value)]) as Hex
    by (exists "f"; left).
  split; [exact Hex|].
  exact (AttachFiles_empty_value_list Rev1 "xyz" [("f", [])]
           (NewRequest sample.client) sample.world Hex).
Defined.

(** C4. Best-effort assembly: when every field has at least one value,
    [AttachFiles] visits all fields whatever errors it meets on the
    way.  The error on the builder afterwards is the last per-field
    error (type mismatch or failed copy), or the one recorded before
    the call when no field failed; and the envelope that becomes the
    body holds, in visiting order, the part of every field that passed
    the type checks, also of those that come after a failed field. *)
Theorem AttachFiles_best_effort rev boundary files r w :
  Forall (λ entry, entry.2 ≠ []) files →
  let r' := (AttachFiles rev boundary files r w).1 in
  Error r' = last_field_error (err r) files ∧
  ∃ wr, body r' = Some (multipart_Buffer wr) ∧
        multipart.closed wr = true ∧
        part_summary <$> multipart.parts wr = omap field_part files.
Proof.
  intros Hne. cbn zeta. unfold AttachFiles.
  match goal with |- context [attach_loop ?st0 files] =>
    destruct (attach_loop_continue files st0 Hne)
      as (st' & -> & Herr & Hparts & _)
  end.
  cbn in *. split; [done|].
  eexists. split; [reflexivity|]. split; [reflexivity|]. exact Hparts.
Qed.

Lemma AttachFiles_best_effort_witness :
  Forall (λ entry : string * list Value, entry.2 ≠ []) sample.mixed_fields ∧
  let r' := (AttachFiles Rev1 "xyz" sample.mixed_fields
               (NewRequest sample.client) sample.world).1 in
  Error r' = last_field_error (err (NewRequest sample.client)) sample.mixed_fields ∧
  ∃ wr, body r' = Some (multipart_Buffer wr) ∧
        multipart.closed wr = true ∧
        part_summary <$> multipart.parts wr = omap field_part sample.mixed_fields.
Proof.
  assert (Forall (λ entry : string * list Value, entry.2 ≠ []) sample.mixed_fields)
    as Hne by (repeat constructor; discriminate).
  split; [exact Hne|].
  exact (AttachFiles_best_effort Rev1 "xyz" sample.mixed_fields
           (NewRequest sample.client) sample.world Hne).
Defined.

(** C5, as the code has it. [AttachFile] on a reader that is not a file
    returns early and leaves body and content type alone, but what it
    stores in [r.err] is the local [err], still [nil]: the error
    accessor returns [nil] afterwards, even if an error had been
    recorded before. *)
Theorem AttachFile_not_a_file boundary src contentType r w :
  let r' := (AttachFile boundary (plain_Reader src) contentType r w).1 in
  Error r' = None ∧ body r' = body r ∧ mime r' = mime r.
Proof. cbn. done. Qed.



(** C7. Query round trip: on a builder without a recorded error, with
    a method and URI that [http.NewRequest] accepts (and no header key
    without a value), [WithQuery] followed by [Do] hands the client a
    request whose raw query is the encoding of the map, and decoding
    that query gives the map back, without error.  A valid map is one
    in which every key has at least one value. *)
Theorem WithQuery_roundtrip `{http.Library} rev method uri headers
    (q : url.Values) r w q0 :
  no_empty_list q →
  err r = None →
  http.NewRequest method uri (body r) = inr q0 →
  Forall (λ entry, entry.2 ≠ []) (hd [] headers) →
  ∃ req resp r',
    Do rev method uri headers (WithQuery q r) w
      = (Returns (resp, r'), closeReader (body r) (log_sent req w)) ∧
    Request_http r' = Some req ∧
    http.RawQuery (http.Url req) = url.Encode q ∧
    url.ParseQuery (http.RawQuery (http.Url req)) = (q, None).
Proof.
  intros Hq He Hnew Hh.
  destruct (prepareRequest_some method uri headers (WithQuery q r) q0 Hnew Hh)
    as (q1 & Hprep & Hraw).
  destruct (prepareCookies_some (set_http (Some q1) (WithQuery q r)) q1 eq_refl)
    as (q2 & Hcook & Hurl).
  assert (http.RawQuery (http.Url q2) = url.Encode q) as Hq2 by (by rewrite Hurl, Hraw).
  exists q2. unfold Do.
  change (err (WithQuery q r)) with (err r). rewrite He, Hprep, Hcook.
  cbn [err set_http Request_http client body WithQuery set_params]. rewrite He.
  destruct (client_Do (client r) q2) as [resp e].
  eexists _, _. split; [reflexivity|]. split; [reflexivity|]. split; [done|].
  rewrite Hq2. by apply ParseQuery_Encode.
Qed.

Lemma WithQuery_roundtrip_witness :
  let r := NewRequest sample.client in
  let q0 := {| http.Method := "GET";
               http.Url := {| http.Scheme := EmptyString; http.Host := EmptyString;
                              http.Path := "http://example.test/x";
                              http.RawQuery := EmptyString;
                              http.Fragment := EmptyString |};
               http.Hdr := ∅; http.Body := None |} in
  no_empty_list sample.query ∧
  err r = None ∧
  http.NewRequest (H := sample.library) "GET" "http://example.test/x" (body r) = inr q0 ∧
  Forall (λ entry : string * list string, entry.2 ≠ []) (hd [] []) ∧
  ∃ req resp r',
    Do (H := sample.library) Rev1 "GET" "http://example.test/x" [] (WithQuery sample.query r)
       sample.world
      = (Returns (resp, r'), closeReader (body r) (log_sent req sample.world)) ∧
    Request_http r' = Some req ∧
    http.RawQuery (http.Url req) = url.Encode sample.query ∧
    url.ParseQuery (http.RawQuery (http.Url req)) = (sample.query, None).
Proof.
  assert (no_empty_list sample.query) as Hq.
  { intros k vs Hk. unfold sample.query in Hk.
    apply lookup_insert_Some in Hk as [[_ <-]|[_ Hk]]; [done|].
    apply lookup_singleton_Some in Hk as [_ <-]. done. }
  assert (Forall (λ entry : string * list string, entry.2 ≠ []) (hd [] [])) as Hh
    by constructor.
  cbn zeta. split; [exact Hq|]. split; [reflexivity|]. split; [reflexivity|].
  split; [exact Hh|].
  exact (WithQuery_roundtrip (H := sample.library) Rev1 "GET" "http://example.test/x" []
           sample.query (NewRequest sample.client) sample.world _ Hq eq_refl eq_refl Hh).
Defined.

(** C8. [AttachFiles] on an empty mapping records no error, makes the
    body a closed envelope without parts and the content type
    [multipart/form-data] with the boundary of that envelope (quoted
    when it has special characters). *)
Theorem AttachFiles_no_fields rev boundary r w :
  let r' := (AttachFiles rev boundary [] r w).1 in
  Error r' = Error r ∧
  body r' = Some (multipart_Buffer
                    {| multipart.boundary := boundary;
                       multipart.parts := [];
                       multipart.closed := true |}) ∧
  ∃ b, mime r' = "multipart/form-data; boundary=" +:+ b ∧
       (b = boundary ∨
        b = String multipart.dquote boundary +:+ String multipart.dquote EmptyString).
Proof.
  cbn. split; [done|]. split; [done|].
  unfold multipart.FormDataContentType, multipart.NewWriter. cbn [multipart.boundary].
  destruct (multipart.ContainsAny boundary multipart.tspecials).
  - eexists. split; [reflexivity|]. by right.
  - exists boundary. split; [reflexivity|]. by left.
Qed.


(** C10. The [contentType] local of [AttachFiles] outlives the
    iteration that set it: when a file given with a content type is
    visited before a file given without one, the second file part
    carries the content type of the first, whereas on its own it
    carries the empty one. *)
Theorem AttachFiles_contentType_carried rev boundary r w
    field1 name1 src1 ct field2 name2 src2 :
  let with_ct := (field1, [go_Reader (os_File name1 src1); go_string ct]) in
  let without := (field2, [go_Reader (os_File name2 src2)]) in
  body (AttachFiles rev boundary [with_ct; without] r w).1 =
    Some (multipart_Buffer
            {| multipart.boundary := boundary;
               multipart.parts :=
                 [multipart.FilePart field1 (filepath.Base name1) [ct] (content src1);
                  multipart.FilePart field2 (filepath.Base name2) [ct] (content src2)];
               multipart.closed := true |}) ∧
  body (AttachFiles rev boundary [without] r w).1 =
    Some (multipart_Buffer
            {| multipart.boundary := boundary;
               multipart.parts :=
                 [multipart.FilePart field2 (filepath.Base name2) [EmptyString]
                    (content src2)];
               multipart.closed := true |}).
Proof.
  cbn zeta. unfold AttachFiles. cbn [attach_loop].
  rewrite attach_field_file_with_type, !attach_field_file_without_type.
  split; reflexivity.
Qed.

End Claims.

(** * Further properties *)

(** ** More on the loop of [AttachFiles] *)

Module attach_more_facts.
Import www www_spec www_more attach_facts.

Lemma attach_loop_app xs ys : ∀ st,
  attach_loop st (xs ++ ys) =
  match attach_loop st xs with
  | Continue st' => attach_loop st' ys
  | Return st' => Return st'
  end.
Proof.
  induction xs as [|x xs IH]; intros st; [reflexivity|].
  cbn [app attach_loop]. destruct (attach_field st x); [apply IH|reflexivity].
Qed.

(** The files and the content type one iteration leaves behind. *)
Lemma attach_field_state st field v0 more :
  ∃ st',
    attach_field st (field, v0 :: more) = Continue st' ∧
    l_files st' = l_files st ++ option_list (field_file (field, v0 :: more)) ∧
    l_contentType st' = field_contentType (l_contentType st) (field, v0 :: more) ∧
    multipart.boundary (l_writer st') = multipart.boundary (l_writer st) ∧
    multipart.closed (l_writer st') = multipart.closed (l_writer st).
Proof.
  unfold attach_field, field_file, field_contentType. cbn [snd].
  destruct v0 as [reader| |]; cbn [as_Reader];
    try (eexists; split; [reflexivity|]; cbn; by rewrite app_nil_r).
  destruct more as [|[ |ct| ] more']; cbn [as_string negb fst snd];
    try (eexists; split; [reflexivity|]; cbn; by rewrite app_nil_r).
  all: destruct reader as [name src|src]; cbn [as_File source_of];
    unfold CreateFormFile, multipart.CreateFormField, copy_field;
    cbn [l_writer loop_writer loop_file loop_contentType];
    rewrite Copy_last; cbn [source_of]; destruct (failure src) as [e|];
    (eexists; split; [reflexivity|]); cbn; by rewrite ?app_nil_r.
Qed.

Lemma attach_loop_state files : ∀ st,
  Forall (λ entry, entry.2 ≠ []) files →
  ∃ st',
    attach_loop st files = Continue st' ∧
    l_files st' = l_files st ++ omap field_file files ∧
    l_contentType st' = fold_left field_contentType files (l_contentType st) ∧
    multipart.boundary (l_writer st') = multipart.boundary (l_writer st) ∧
    multipart.closed (l_writer st') = multipart.closed (l_writer st).
Proof.
  induction files as [|[field values] files IH]; intros st Hne.
  - exists st. cbn. by rewrite app_nil_r.
  - apply Forall_cons in Hne as [Hv Hne]. cbn [snd] in Hv.
    destruct values as [|v0 more]; [done|].
    destruct (attach_field_state st field v0 more) as (st1 & Hstep & Hf & Hct & Hb & Hc).
    destruct (IH st1 Hne) as (st' & Hloop & Hf' & Hct' & Hb' & Hc').
    exists st'. cbn [attach_loop]. rewrite Hstep. split; [done|].
    rewrite Hf', Hf, Hct', Hct. cbn [omap list_omap fold_left].
    split; [|split; [done|split; congruence]].
    rewrite <- app_assoc. f_equal.
    by destruct (field_file (field, v0 :: more)).
Qed.

Lemma close_all_world fs : ∀ w,
  sent (close_all fs w) = sent w ∧
  closed_readers (close_all fs w) = closed_readers w ++ (caller_Reader <$> fs).
Proof.
  unfold close_all. induction fs as [|f fs IH]; intros w.
  - cbn. by rewrite app_nil_r.
  - cbn [fold_left fmap list_fmap]. destruct (IH (closeReader (Some (caller_Reader f)) w))
      as [Hs Hc]. rewrite Hs, Hc. cbn. by rewrite <- app_assoc.
Qed.

End attach_more_facts.

(** ** Multipart assembly *)

Section Multipart.
Import www www_spec www_more.
Import attach_facts attach_more_facts.

(** X4. [AttachFile] on a file always closes the file and sends
    nothing.  When the copy succeeds the recorded error is kept, the
    body becomes a closed envelope with the single file part [file]
    (named after the base of the file's path, with the content types
    as given) and the content type is that of the envelope; when the
    copy fails its error is recorded and body and content type stay. *)
Theorem AttachFile_on_file boundary name src contentType r w :
  let r' := (AttachFile boundary (os_File name src) contentType r w).1 in
  let w' := (AttachFile boundary (os_File name src) contentType r w).2 in
  sent w' = sent w ∧
  closed_readers w' = closed_readers w ++ [caller_Reader (os_File name src)] ∧
  match failure src with
  | None =>
      Error r' = Error r ∧
      mime r' = multipart.FormDataContentType (multipart.NewWriter boundary) ∧
      body r' = Some (multipart_Buffer
                        {| multipart.boundary := boundary;
                           multipart.parts :=
                             [multipart.FilePart "file" (filepath.Base name)
                                contentType (content src)];
                           multipart.closed := true |})
  | Some e =>
      Error r' = Some e ∧ body r' = body r ∧ mime r' = mime r
  end.
Proof.
  cbn zeta. unfold AttachFile, CreateFormFile. cbn [as_File source_of].
  rewrite Copy_last. by destruct (failure src).
Qed.

(** X5. When every field has at least one value, [AttachFiles] closes
    exactly the files among the fields that passed the type checks,
    each once (the first revision in visiting order, the second in
    reverse), whether or not their copy succeeded; readers that are not
    files are never closed, and nothing is sent. *)
Theorem AttachFiles_closes_files rev boundary files r w :
  Forall (λ entry, entry.2 ≠ []) files →
  let w' := (AttachFiles rev boundary files r w).2 in
  sent w' = sent w ∧
  closed_readers w' =
    closed_readers w ++
    (caller_Reader <$> match rev with
                       | Rev1 => omap field_file files
                       | Rev2 => reverse (omap field_file files)
                       end).
Proof.
  intros Hne. cbn zeta. unfold AttachFiles.
  match goal with |- context [attach_loop ?st0 files] =>
    destruct (attach_loop_state files st0 Hne) as (st' & -> & Hf & _)
  end.
  cbn [snd l_files app] in *. rewrite Hf.
  destruct rev; apply close_all_world.
Qed.

Lemma AttachFiles_closes_files_witness :
  Forall (λ entry : string * list Value, entry.2 ≠ []) sample.mixed_fields ∧
  let w' := (AttachFiles Rev2 "xyz" sample.mixed_fields
               (NewRequest sample.client) sample.world).2 in
  sent w' = sent sample.world ∧
  closed_readers w' =
    closed_readers sample.world ++
    (caller_Reader <$> reverse (omap field_file sample.mixed_fields)).
Proof.
  assert (Forall (λ entry : string * list Value, entry.2 ≠ []) sample.mixed_fields)
    as Hne by (repeat constructor; discriminate).
  split; [exact Hne|].
  exact (AttachFiles_closes_files Rev2 "xyz" sample.mixed_fields
           (NewRequest sample.client) sample.world Hne).
Defined.

(** X6. [AttachFiles] stops at the first field without values: the
    fields after it play no part in the result.  The first revision
    then returns without closing any of the files it has already
    read; the second closes them, last one first. *)
Theorem AttachFiles_stops_at_empty_list rev boundary before field after r w :
  Forall (λ entry, entry.2 ≠ []) before →
  AttachFiles rev boundary (before ++ (field, []) :: after) r w
    = AttachFiles rev boundary (before ++ [(field, [])]) r w ∧
  (AttachFiles Rev1 boundary (before ++ (field, []) :: after) r w).2 = w ∧
  closed_readers (AttachFiles Rev2 boundary (before ++ (field, []) :: after) r w).2
    = closed_readers w ++ (caller_Reader <$> reverse (omap field_file before)).
Proof.
  intros Hne. unfold AttachFiles. rewrite !attach_loop_app.
  match goal with |- context [attach_loop ?st0 before] =>
    destruct (attach_loop_state before st0 Hne) as (st' & -> & Hf & _)
  end.
  cbn [attach_loop attach_field snd fst l_files loop_err app] in *.
  split; [reflexivity|]. split; [reflexivity|].
  rewrite Hf. apply close_all_world.
Qed.

Lemma AttachFiles_stops_at_empty_list_witness :
  let before := [("doc", [go_Reader (os_File "/tmp/report.txt" sample.report)])] in
  let after := [("late", [go_Reader (os_File "/tmp/late.txt" sample.report)])] in
  let r := NewRequest sample.client in
  Forall (λ entry : string * list Value, entry.2 ≠ []) before ∧
  AttachFiles Rev1 "xyz" (before ++ ("f", []) :: after) r sample.world
    = AttachFiles Rev1 "xyz" (before ++ [("f", [])]) r sample.world ∧
  (AttachFiles Rev1 "xyz" (before ++ ("f", []) :: after) r sample.world).2 = sample.world ∧
  closed_readers (AttachFiles Rev2 "xyz" (before ++ ("f", []) :: after) r sample.world).2
    = closed_readers sample.world ++ (caller_Reader <$> reverse (omap field_file before)).
Proof.
  cbn zeta.
  assert (Forall (λ entry : string * list Value, entry.2 ≠ [])
            [("doc", [go_Reader (os_File "/tmp/report.txt" sample.report)])])
    as Hne by (repeat constructor; discriminate).
  split; [exact Hne|].
  exact (AttachFiles_stops_at_empty_list Rev1 "xyz" _ "f"
           [("late", [go_Reader (os_File "/tmp/late.txt" sample.report)])]
           (NewRequest sample.client) sample.world Hne).
Defined.

(** X7. Neither [AttachFile] nor [AttachFiles] ever sends a request or
    touches the query string, the pending cookies, the client or the
    embedded request of the builder, whatever they are given. *)
Theorem attach_frame rev boundary reader contentType files r w :
  let single := AttachFile boundary reader contentType r w in
  let multi := AttachFiles rev boundary files r w in
  (params single.1 = params r ∧ cookies single.1 = cookies r ∧
   client single.1 = client r ∧ Request_http single.1 = Request_http r ∧
   sent single.2 = sent w) ∧
  (params multi.1 = params r ∧ cookies multi.1 = cookies r ∧
   client multi.1 = client r ∧ Request_http multi.1 = Request_http r ∧
   sent multi.2 = sent w).
Proof.
  cbn zeta. split.
  - unfold AttachFile, CreateFormFile.
    destruct reader as [name src|src]; cbn [as_File source_of]; [|done].
    rewrite Copy_last. by destruct (failure src).
  - unfold AttachFiles.
    destruct (attach_loop _ files) as [st|st]; cbn [fst snd];
      (repeat split; try reflexivity);
      destruct rev; try reflexivity; apply close_all_world.
Qed.

(** X8. A file field given without a content type, visited after any
    fields that each have at least one value, is written with the
    content type those fields left behind: the second value of the last
    of them that had a reader first and a second value at all, the
    empty string if that value was not a string or if there was no
    such field. *)
Theorem AttachFiles_inherited_contentType rev boundary before field name src r w :
  Forall (λ entry, entry.2 ≠ []) before →
  ∃ earlier,
    body (AttachFiles rev boundary
            (before ++ [(field, [go_Reader (os_File name src)])]) r w).1 =
    Some (multipart_Buffer
            {| multipart.boundary := boundary;
               multipart.parts :=
                 earlier ++ [multipart.FilePart field (filepath.Base name)
                               [carried_contentType before] (content src)];
               multipart.closed := true |}).
Proof.
  intros Hne. unfold AttachFiles. rewrite attach_loop_app.
  match goal with |- context [attach_loop ?st0 before] =>
    destruct (attach_loop_state before st0 Hne) as (st' & -> & _ & Hct & Hb & Hc)
  end.
  cbn [attach_loop]. rewrite attach_field_file_without_type.
  cbn in *. rewrite Hct, Hb. by eexists.
Qed.

Lemma AttachFiles_inherited_contentType_witness :
  let before :=
    [("doc", [go_Reader (os_File "/tmp/report.txt" sample.report); go_string "text/plain"]);
     ("raw", [go_Reader (plain_Reader sample.report); go_other])] in
  Forall (λ entry : string * list Value, entry.2 ≠ []) before ∧
  ∃ earlier,
    body (AttachFiles Rev1 "xyz"
            (before ++ [("pic", [go_Reader (os_File "/tmp/pic.png" sample.report)])])
            (NewRequest sample.client) sample.world).1 =
    Some (multipart_Buffer
            {| multipart.boundary := "xyz";
               multipart.parts :=
                 earlier ++ [multipart.FilePart "pic" (filepath.Base "/tmp/pic.png")
                               [carried_contentType before] (content sample.report)];
               multipart.closed := true |}).
Proof.
  cbn zeta.
  assert (Forall (λ entry : string * list Value, entry.2 ≠ [])
            [("doc", [go_Reader (os_File "/tmp/report.txt" sample.report);
                      go_string "text/plain"]);
             ("raw", [go_Reader (plain_Reader sample.report); go_other])])
    as Hne by (repeat constructor; discriminate).
  split; [exact Hne|].
  exact (AttachFiles_inherited_contentType Rev1 "xyz" _ "pic" "/tmp/pic.png" sample.report
           (NewRequest sample.client) sample.world Hne).
Defined.

End Multipart.

(** ** Headers, cookies and the request that is built *)

Module dispatch_more_facts.
Import www www_spec www_more dispatch_facts.

Lemma closeReader_sent rd w : sent (closeReader rd w) = sent w.
Proof. by destruct rd. Qed.

Lemma closeReader_closed rd w :
  closed_readers (closeReader rd w) = closed_readers w ++ option_list rd.
Proof. destruct rd; cbn; [done|by rewrite app_nil_r]. Qed.

Section WithLibrary.
Context `{http.Library}.

Lemma Header_Set_lookup key value (h : http.Header) K :
  http.Header_Set key value h !! K =
  if decide (http.CanonicalMIMEHeaderKey key = K) then Some [value] else h !! K.
Proof.
  unfold http.Header_Set. case_decide as HK.
  - subst K. apply lookup_insert_eq.
  - by apply lookup_insert_ne.
Qed.

Lemma Header_Get_Set key value (h : http.Header) :
  http.Header_Get key (http.Header_Set key value h) = value.
Proof. unfold http.Header_Get. rewrite Header_Set_lookup. by rewrite decide_True. Qed.

(** Keys that the first header map does not name keep their value. *)
Lemma apply_headers_other entries : ∀ (h : http.Header) K,
  K ∉ http.CanonicalMIMEHeaderKey <$> entries.*1 →
  apply_headers entries h !! K = h !! K.
Proof.
  unfold apply_headers.
  induction entries as [|[key val] entries IH]; intros h K HK; [reflexivity|].
  cbn [fmap list_fmap fst] in HK. apply not_elem_of_cons in HK as [Hne HK].
  cbn [fold_left fst snd]. rewrite IH by done.
  rewrite Header_Set_lookup. by rewrite decide_False.
Qed.

(** A key of the first header map ends up with its first value, when
    no other key of the map has the same canonical form. *)
Lemma apply_headers_key entries : ∀ (h : http.Header) key val,
  NoDup (http.CanonicalMIMEHeaderKey <$> entries.*1) →
  (key, val) ∈ entries →
  apply_headers entries h !! http.CanonicalMIMEHeaderKey key
    = Some [hd EmptyString val].
Proof.
  unfold apply_headers.
  induction entries as [|[key0 val0] entries IH]; intros h key val Hnd Hin.
  - by apply elem_of_nil in Hin.
  - cbn [fmap list_fmap fst] in Hnd. apply NoDup_cons in Hnd as [Hfresh Hnd].
    cbn [fold_left fst snd]. apply elem_of_cons in Hin as [Heq|Hin].
    + inversion Heq; subst key0 val0.
      pose proof (apply_headers_other entries
                    (http.Header_Set key (hd EmptyString val) h) _ Hfresh) as Hother.
      unfold apply_headers in Hother. rewrite Hother.
      rewrite Header_Set_lookup. by rewrite decide_True.
    + by apply IH.
Qed.

Lemma AddCookie_fields c q :
  http.Method (http.AddCookie c q) = http.Method q ∧
  http.Body (http.AddCookie c q) = http.Body q.
Proof. unfold http.AddCookie. by case (isEmpty _). Qed.

Lemma AddCookies_fields cs : ∀ q,
  http.Method (fold_left (λ q c, http.AddCookie c q) cs q) = http.Method q ∧
  http.Body (fold_left (λ q c, http.AddCookie c q) cs q) = http.Body q.
Proof.
  induction cs as [|c cs IH]; intros q; [done|].
  cbn [fold_left]. destruct (IH (http.AddCookie c q)) as [-> ->].
  apply AddCookie_fields.
Qed.

(** Adding cookies only touches the [Cookie] header. *)
Lemma AddCookies_Hdr_other cs : ∀ q K,
  K ≠ http.CanonicalMIMEHeaderKey "Cookie" →
  http.Hdr (fold_left (λ q c, http.AddCookie c q) cs q) !! K = http.Hdr q !! K.
Proof.
  induction cs as [|c cs IH]; intros q K HK; [reflexivity|].
  cbn [fold_left]. rewrite IH by done. unfold http.AddCookie.
  case (isEmpty _); cbn [http.with_Hdr http.Hdr];
    rewrite Header_Set_lookup; by rewrite decide_False.
Qed.

(** The [Cookie] header after adding cookies none of which has an empty
    text, to a request that already has a non-empty [Cookie] header. *)
Lemma AddCookies_append cs : ∀ q,
  Forall (λ c, http.cookie_text c ≠ EmptyString) cs →
  isEmpty (http.Header_Get "Cookie" (http.Hdr q)) = false →
  http.Header_Get "Cookie" (http.Hdr (fold_left (λ q c, http.AddCookie c q) cs q)) =
  http.Header_Get "Cookie" (http.Hdr q)
    +:+ match cs with
        | [] => EmptyString
        | _ :: _ => "; " +:+ join_cookies (http.cookie_text <$> cs)
        end.
Proof.
  induction cs as [|c cs IH]; intros q Hcs Hold.
  - cbn. by rewrite sapp_nil_r.
  - apply Forall_cons in Hcs as [Hc Hcs]. cbn [fold_left].
    assert (http.Header_Get "Cookie" (http.Hdr (http.AddCookie c q)) =
            http.Header_Get "Cookie" (http.Hdr q) +:+ "; " +:+ http.cookie_text c) as Hget.
    { unfold http.AddCookie. rewrite Hold. cbn [http.with_Hdr http.Hdr].
      apply Header_Get_Set. }
    rewrite IH; [|done|].
    + rewrite Hget. destruct cs as [|c' cs]; cbn [fmap list_fmap join_cookies].
      * by rewrite sapp_nil_r.
      * by rewrite <- !sapp_assoc.
    + rewrite Hget. rewrite isEmpty_app, Hold. reflexivity.
Qed.

Lemma AddCookies_join cs q :
  Forall (λ c, http.cookie_text c ≠ EmptyString) cs →
  http.Header_Get "Cookie" (http.Hdr q) = EmptyString →
  http.Header_Get "Cookie" (http.Hdr (fold_left (λ q c, http.AddCookie c q) cs q)) =
  join_cookies (http.cookie_text <$> cs).
Proof.
  intros Hcs Hold. destruct cs as [|c cs]; [by cbn; rewrite Hold|].
  pose proof Hcs as Hall. apply Forall_cons in Hcs as [Hc Hcs]. cbn [fold_left].
  assert (http.Header_Get "Cookie" (http.Hdr (http.AddCookie c q)) = http.cookie_text c)
    as Hget.
  { unfold http.AddCookie. rewrite Hold. cbn [isEmpty http.with_Hdr http.Hdr].
    apply Header_Get_Set. }
  rewrite AddCookies_append; [|done|].
  - rewrite Hget. destruct cs as [|c' cs]; cbn [fmap list_fmap join_cookies].
    + by rewrite sapp_nil_r.
    + reflexivity.
  - rewrite Hget. by destruct (http.cookie_text c).
Qed.

(** What [http.NewRequest] returns when it returns a request. *)
Lemma NewRequest_ok method uri body u :
  http.validMethod (if isEmpty method then "GET" else method) = true →
  http.url_Parse uri = inr u →
  http.NewRequest method uri body =
  inr {| http.Method := if isEmpty method then "GET" else method;
         http.Url := u; http.Hdr := ∅; http.Body := body |}.
Proof. intros Hm Hu. unfold http.NewRequest. by rewrite Hm, Hu. Qed.

Lemma prepareRequest_built method uri headers r q0 :
  http.NewRequest method uri (body r) = inr q0 →
  Forall (λ entry, entry.2 ≠ []) (hd [] headers) →
  prepareRequest method uri headers r =
  Returns (set_http (Some (built_request headers (set_cookies [] r) q0)) r).
Proof.
  intros Hnew Hh. unfold prepareRequest, built_request. rewrite Hnew.
  cbn [cookies set_cookies fold_left params mime].
  destruct headers as [|first others]; [reflexivity|].
  cbn [hd] in Hh. by rewrite set_headers_total.
Qed.

Lemma prepareCookies_built r q1 :
  prepareCookies (set_http (Some q1) r) =
  Returns (set_http (Some (fold_left (λ q c, http.AddCookie c q) (cookies r) q1)) r).
Proof.
  unfold prepareCookies. cbn [cookies set_http Request_http].
  by destruct (cookies r).
Qed.

(** Dispatch on a builder without recorded error, when the request
    can be built: the request goes to the client once, the response
    wraps the answer, the body is closed afterwards. *)
Lemma Do_built rev method uri headers r w q0 :
  err r = None →
  http.NewRequest method uri (body r) = inr q0 →
  Forall (λ entry, entry.2 ≠ []) (hd [] headers) →
  Do rev method uri headers r w =
  (Returns (wrap_response (client_Do (client r) (built_request headers r q0)),
            set_http (Some (built_request headers r q0)) r),
   closeReader (body r) (log_sent (built_request headers r q0) w)).
Proof.
  intros He Hnew Hh. unfold Do.
  rewrite He, (prepareRequest_built _ _ _ _ q0) by done.
  rewrite prepareCookies_built.
  change (fold_left _ (cookies r) (built_request headers (set_cookies [] r) q0))
    with (built_request headers r q0).
  cbn [err set_http Request_http client]. rewrite He.
  unfold wrap_response. by destruct (client_Do (client r) _).
Qed.

(** The fields of the built request that do not depend on headers and
    cookies. *)
Lemma built_request_fields headers r q0 :
  http.Method (built_request headers r q0) = http.Method q0 ∧
  http.Body (built_request headers r q0) = http.Body q0 ∧
  http.Url (built_request headers r q0) = http.set_RawQuery (params r) (http.Url q0).
Proof.
  unfold built_request.
  match goal with |- context [fold_left _ _ ?q] => set (q1 := q) end.
  destruct (AddCookies_fields (cookies r) q1) as [-> ->]. rewrite AddCookies_Url.
  subst q1. by destruct headers, (isEmpty (mime r)).
Qed.

(** Its headers, away from the [Cookie] key. *)
Lemma built_request_Hdr headers r q0 K :
  K ≠ http.CanonicalMIMEHeaderKey "Cookie" →
  http.Hdr (built_request headers r q0) !! K =
  apply_headers (hd [] headers)
    (if isEmpty (mime r) then http.Hdr q0
     else http.Header_Set "Content-Type" (mime r) (http.Hdr q0)) !! K.
Proof.
  intros HK. unfold built_request. rewrite AddCookies_Hdr_other by done.
  by destruct headers, (isEmpty (mime r)).
Qed.

End WithLibrary.

End dispatch_more_facts.

(** ** Configuration calls *)

Section Configuration.
Import www www_spec www_more url_aux url_facts.

(** X1. [With] is [WithQuery] and [WithForm] in one call, in either
    order. *)
Theorem With_composes params data r :
  With params data r = WithForm data (WithQuery params r) ∧
  With params data r = WithQuery params (WithForm data r).
Proof. split; reflexivity. Qed.

(** X2. [WithForm] makes the body a reader over the encoded form and
    the content type [application/x-www-form-urlencoded]; decoding the
    body text gives the form back, without error, when every key has at
    least one value. *)
Theorem WithForm_roundtrip (data : url.Values) r :
  no_empty_list data →
  ∃ text,
    body (WithForm data r) = Some (strings_NewReader text) ∧
    mime (WithForm data r) = "application/x-www-form-urlencoded" ∧
    Error (WithForm data r) = Error r ∧
    url.ParseQuery text = (data, None).
Proof.
  intros Hdata. exists (url.Encode data).
  repeat split. by apply ParseQuery_Encode.
Qed.

Lemma WithForm_roundtrip_witness :
  no_empty_list sample_more.form ∧
  ∃ text,
    body (WithForm sample_more.form (NewRequest sample.client))
      = Some (strings_NewReader text) ∧
    mime (WithForm sample_more.form (NewRequest sample.client))
      = "application/x-www-form-urlencoded" ∧
    Error (WithForm sample_more.form (NewRequest sample.client))
      = Error (NewRequest sample.client) ∧
    url.ParseQuery text = (sample_more.form, None).
Proof.
  assert (no_empty_list sample_more.form) as Hform.
  { intros k vs Hk. unfold sample_more.form in Hk.
    apply lookup_singleton_Some in Hk as [_ <-]. done. }
  split; [exact Hform|].
  exact (WithForm_roundtrip sample_more.form (NewRequest sample.client) Hform).
Defined.


End Configuration.

(** ** Dispatch, on every path *)

Section Dispatching.
Import www www_spec www_more dispatch_facts dispatch_more_facts.
Context `{http.Library}.

(** X9. Dispatch on a builder without recorded error, with a method
    and URI the library accepts and no header key without a value:
    exactly one request goes to the client, the response wraps the
    client's answer, the body is closed after sending, and the builder
    keeps the request it sent.  That request has the method (GET when
    empty) and the body of the builder, and the parsed URI with its
    query replaced by the query string of the builder, whatever query
    the URI carried. *)
Theorem Do_reaches_client rev method uri headers r w u :
  err r = None →
  http.validMethod (if isEmpty method then "GET" else method) = true →
  http.url_Parse uri = inr u →
  Forall (λ entry, entry.2 ≠ []) (hd [] headers) →
  ∃ req,
    Do rev method uri headers r w =
      (Returns (wrap_response (client_Do (client r) req), set_http (Some req) r),
       closeReader (body r) (log_sent req w)) ∧
    http.Method req = (if isEmpty method then "GET" else method) ∧
    http.Body req = body r ∧
    http.Url req = http.set_RawQuery (params r) u ∧
    Headers (set_http (Some req) r) = http.Hdr req.
Proof.
  intros He Hm Hu Hh.
  pose proof (NewRequest_ok method uri (body r) u Hm Hu) as Hnew.
  eexists. split; [by apply (Do_built _ _ _ _ _ _ _ He Hnew Hh)|].
  match goal with |- context [built_request headers r ?q0] =>
    destruct (built_request_fields headers r q0) as (-> & -> & ->)
  end.
  done.
Qed.

(** X10. When [http.NewRequest] rejects the method or the URI and no
    cookies are pending, dispatch returns a shell without transport
    response, records the rejection on the builder, drops the embedded
    request, closes the body and sends nothing. *)
Theorem Do_rejected_request rev method uri headers r w e :
  err r = None →
  http.NewRequest method uri (body r) = inl e →
  cookies r = [] →
  Do rev method uri headers r w =
    (Returns (short_circuit rev e, set_err (Some e) (set_http None r)),
     closeReader (body r) w) ∧
  Response_http (short_circuit rev e) = None ∧
  sent (closeReader (body r) w) = sent w.
Proof.
  intros He Hnew Hcs. unfold Do, prepareRequest, prepareCookies.
  rewrite He, Hnew. cbn [cookies set_err set_http err]. rewrite Hcs.
  split; [reflexivity|]. split; [by destruct rev|by destruct (body r)].
Qed.

(** X11. When [http.NewRequest] rejects the method or the URI while
    cookies are pending, dispatch panics: [prepareCookies] runs before
    the error is looked at and adds the first cookie to a request that
    does not exist.  The deferred close of the body still runs, and
    nothing is sent. *)
Theorem Do_panics_with_pending_cookies rev method uri headers r w e :
  err r = None →
  http.NewRequest method uri (body r) = inl e →
  cookies r ≠ [] →
  Do rev method uri headers r w =
    (Panics "nil pointer dereference", closeReader (body r) w).
Proof.
  intros He Hnew Hcs. unfold Do, prepareRequest, prepareCookies.
  rewrite He, Hnew. cbn [cookies set_err set_http Request_http].
  by destruct (cookies r).
Qed.

(** X12. A rejected dispatch poisons the builder: after it, every
    further dispatch, with whatever method, URI and headers, returns
    the shell of the recorded rejection and sends nothing. *)
Theorem Do_after_rejection rev method uri headers r w e :
  err r = None →
  http.NewRequest method uri (body r) = inl e →
  cookies r = [] →
  ∃ shell r1,
    (Do rev method uri headers r w).1 = Returns (shell, r1) ∧
    ∀ method' uri' headers' w',
      (Do rev method' uri' headers' r1 w').1 = Returns (short_circuit rev e, r1) ∧
      sent (Do rev method' uri' headers' r1 w').2 = sent w'.
Proof.
  intros He Hnew Hcs.
  exists (short_circuit rev e), (set_err (Some e) (set_http None r)). split.
  - unfold Do, prepareRequest, prepareCookies.
    rewrite He, Hnew. cbn [cookies set_err set_http err]. by rewrite Hcs.
  - intros method' uri' headers' w'. unfold Do. cbn [err set_err body set_http fst snd].
    split; [reflexivity|]. by destruct (body r).
Qed.

(** X13. On every path, panics included, [Do] closes the body of the
    builder exactly once when there is one, and sends at most one
    request; it sends one only when it returns with no error recorded
    on the builder, and that request is the one the builder then
    holds. *)
Theorem Do_closes_body rev method uri headers r w :
  closed_readers (Do rev method uri headers r w).2
    = closed_readers w ++ option_list (body r) ∧
  (sent (Do rev method uri headers r w).2 = sent w ∨
   ∃ req shell r',
     (Do rev method uri headers r w).1 = Returns (shell, r') ∧
     err r' = None ∧ Request_http r' = Some req ∧
     sent (Do rev method uri headers r w).2 = sent w ++ [req]).
Proof.
  assert (∀ w0, closed_readers (closeReader (body r) w0)
                = closed_readers w0 ++ option_list (body r)) as Hclosed.
  { intros w0. destruct (body r); cbn; [done|by rewrite app_nil_r]. }
  assert (∀ w0, sent (closeReader (body r) w0) = sent w0) as Hsent.
  { intros w0. by destruct (body r). }
  unfold Do. destruct (err r) as [e|]; cbn [fst snd].
  { split; [apply Hclosed|]. left. apply Hsent. }
  destruct (prepareRequest method uri headers r) as [r1|m]; cbn [fst snd];
    [|split; [apply Hclosed|left; apply Hsent]].
  destruct (prepareCookies r1) as [r2|m]; cbn [fst snd];
    [|split; [apply Hclosed|left; apply Hsent]].
  destruct (err r2) as [e|] eqn:He2; cbn [fst snd];
    [split; [apply Hclosed|left; apply Hsent]|].
  destruct (Request_http r2) as [q|] eqn:Hq; cbn [fst snd];
    [|split; [apply Hclosed|left; apply Hsent]].
  destruct (client_Do (client r2) q) as [resp e]. cbn [fst snd].
  split; [by rewrite Hclosed|].
  right. exists q. eexists _, r2. rewrite Hsent. done.
Qed.

End Dispatching.

(** ** Headers and cookies of the request that is sent *)

Section SentHeaders.
Import www www_spec www_more dispatch_facts dispatch_more_facts.
Context `{http.Library}.

(** X14. Extra headers are applied after the default: in the request
    that is sent, every key of the first header map has the first of
    its values, also [Content-Type], whatever the content type of the
    builder; a builder content type reaches the request only when the
    map does not name [Content-Type], and without one the header is
    absent.  (Keys are compared in canonical form; no two keys of the
    map share one; the [Cookie] key is left to the pending cookies.) *)
Theorem Do_extra_headers_override rev method uri headers r w u :
  err r = None →
  http.validMethod (if isEmpty method then "GET" else method) = true →
  http.url_Parse uri = inr u →
  Forall (λ entry, entry.2 ≠ []) (hd [] headers) →
  NoDup (http.CanonicalMIMEHeaderKey <$> (hd [] headers).*1) →
  ∃ req,
    sent (Do rev method uri headers r w).2 = sent w ++ [req] ∧
    (∀ key val,
       (key, val) ∈ hd [] headers →
       http.CanonicalMIMEHeaderKey key ≠ http.CanonicalMIMEHeaderKey "Cookie" →
       http.Hdr req !! http.CanonicalMIMEHeaderKey key = Some [hd EmptyString val]) ∧
    (http.CanonicalMIMEHeaderKey "Content-Type"
       ∉ http.CanonicalMIMEHeaderKey <$> (hd [] headers).*1 →
     http.CanonicalMIMEHeaderKey "Content-Type" ≠ http.CanonicalMIMEHeaderKey "Cookie" →
     http.Hdr req !! http.CanonicalMIMEHeaderKey "Content-Type"
       = if isEmpty (mime r) then None else Some [mime r]).
Proof.
  intros He Hm Hu Hh Hnd.
  pose proof (NewRequest_ok method uri (body r) u Hm Hu) as Hnew.
  eexists. rewrite (Do_built _ _ _ _ _ _ _ He Hnew Hh). cbn [snd].
  rewrite closeReader_sent. split; [reflexivity|]. split.
  - intros key val Hin Hkey. rewrite built_request_Hdr by done.
    by apply apply_headers_key.
  - intros Hnotin Hkey. rewrite built_request_Hdr by done.
    rewrite apply_headers_other by done. cbn [http.Hdr].
    destruct (isEmpty (mime r)); [apply lookup_empty|].
    rewrite Header_Set_lookup. by rewrite decide_True.
Qed.

(** X15. [prepareCookies] on a builder that holds a request leaves
    everything but the [Cookie] header of that request alone, and makes
    that header the pending cookies in order, joined by a semicolon and
    a space, appended in the same way to what the header already held.
    (No cookie has an empty text.) *)
Theorem prepareCookies_header r q :
  Request_http r = Some q →
  Forall (λ c, http.cookie_text c ≠ EmptyString) (cookies r) →
  ∃ q',
    prepareCookies r = Returns (set_http (Some q') r) ∧
    http.Header_Get "Cookie" (http.Hdr q') =
      (let old := http.Header_Get "Cookie" (http.Hdr q) in
       let new := join_cookies (http.cookie_text <$> cookies r) in
       match cookies r with
       | [] => old
       | _ :: _ => if isEmpty old then new else old +:+ "; " +:+ new
       end) ∧
    (∀ K, K ≠ http.CanonicalMIMEHeaderKey "Cookie" →
          http.Hdr q' !! K = http.Hdr q !! K) ∧
    http.Url q' = http.Url q ∧
    http.Method q' = http.Method q ∧
    http.Body q' = http.Body q.
Proof.
  intros Hq Hcs.
  exists (fold_left (λ q c, http.AddCookie c q) (cookies r) q). split.
  { unfold prepareCookies. rewrite Hq.
    destruct (cookies r) eqn:Hc; [|reflexivity].
    cbn [fold_left]. f_equal. destruct r; cbn in *. by subst. }
  split.
  { cbn zeta. destruct (cookies r) as [|c cs] eqn:Hc; [reflexivity|].
    destruct (isEmpty (http.Header_Get "Cookie" (http.Hdr q))) eqn:Hold.
    - apply AddCookies_join; [done|].
      by destruct (http.Header_Get "Cookie" (http.Hdr q)).
    - by rewrite AddCookies_append. }
  split; [intros K HK; by apply AddCookies_Hdr_other|].
  split; [apply AddCookies_Url|]. apply AddCookies_fields.
Qed.

(** X16. [Json] followed by a dispatch without extra headers: when
    marshalling succeeds and the request can be built, the request that
    is sent has the marshalled bytes as its body and
    [application/json] as its content type, and that body is closed
    after sending. *)
Theorem Json_then_Do {A} `{Marshaler A} rev method uri (d : A) b r w u :
  json_Marshal d = inr b →
  err r = None →
  http.validMethod (if isEmpty method then "GET" else method) = true →
  http.url_Parse uri = inr u →
  http.CanonicalMIMEHeaderKey "Content-Type" ≠ http.CanonicalMIMEHeaderKey "Cookie" →
  ∃ req,
    sent (Do rev method uri [] (Json d r) w).2 = sent w ++ [req] ∧
    http.Body req = Some (bytes_NewReader b) ∧
    http.Hdr req !! http.CanonicalMIMEHeaderKey "Content-Type"
      = Some ["application/json"] ∧
    closed_readers (Do rev method uri [] (Json d r) w).2
      = closed_readers w ++ [bytes_NewReader b].
Proof.
  intros Hd He Hm Hu Hkey.
  assert (Json d r = set_body (Some (bytes_NewReader b)) (set_mime "application/json" r))
    as -> by (unfold Json; by rewrite Hd).
  set (r1 := set_body _ _).
  pose proof (NewRequest_ok method uri (body r1) u Hm Hu) as Hnew.
  assert (Forall (λ entry : string * list string, entry.2 ≠ []) (hd [] [])) as Hh
    by constructor.
  eexists. rewrite (Do_built _ _ _ _ r1 _ _ He Hnew Hh). cbn [snd].
  rewrite closeReader_sent, closeReader_closed.
  split; [reflexivity|].
  match goal with |- context [built_request [] r1 ?q0] =>
    destruct (built_request_fields [] r1 q0) as (_ & -> & _)
  end.
  split; [reflexivity|]. split; [|reflexivity].
  rewrite built_request_Hdr by done. cbn [hd apply_headers fold_left mime r1 set_body
    set_mime isEmpty http.Hdr].
  unfold apply_headers. cbn [fold_left].
  rewrite Header_Set_lookup. by rewrite decide_True.
Qed.

End SentHeaders.

(** ** The dispatch properties on the sample collaborators *)

Section DispatchWitnesses.
Import www www_spec www_more.

Lemma Do_reaches_client_witness :
  let r := NewRequest sample.client in
  err r = None ∧
  http.validMethod (Library := sample.library) "GET" = true ∧
  http.url_Parse (Library := sample.library) "http://example.test/x?old=1"
    = inr sample_more.page ∧
  Forall (λ entry : string * list string, entry.2 ≠ []) (hd [] []) ∧
  ∃ req,
    Do (H := sample.library) Rev1 "GET" "http://example.test/x?old=1" [] r sample.world =
      (Returns (wrap_response (client_Do (client r) req), set_http (Some req) r),
       closeReader (body r) (log_sent req sample.world)) ∧
    http.Method req = "GET" ∧
    http.Body req = body r ∧
    http.Url req = http.set_RawQuery (params r) sample_more.page ∧
    Headers (set_http (Some req) r) = http.Hdr req.
Proof.
  assert (Forall (λ entry : string * list string, entry.2 ≠ []) (hd [] [])) as Hh
    by constructor.
  cbn zeta. split; [reflexivity|]. split; [reflexivity|]. split; [reflexivity|].
  split; [exact Hh|].
  exact (Do_reaches_client (H := sample.library) Rev1 "GET" "http://example.test/x?old=1" []
           (NewRequest sample.client) sample.world sample_more.page
           eq_refl eq_refl eq_refl Hh).
Defined.

Lemma Do_rejected_request_witness :
  let r := NewRequest sample.client in
  err r = None ∧
  http.NewRequest (H := sample.library) "GET" "http://example.test/a b" (body r)
    = inl sample_more.rejected ∧
  cookies r = [] ∧
  Do (H := sample.library) Rev2 "GET" "http://example.test/a b" [] r sample.world =
    (Returns (short_circuit Rev2 sample_more.rejected,
              set_err (Some sample_more.rejected) (set_http None r)),
     closeReader (body r) sample.world) ∧
  Response_http (short_circuit Rev2 sample_more.rejected) = None ∧
  sent (closeReader (body r) sample.world) = sent sample.world.
Proof.
  cbn zeta. split; [reflexivity|]. split; [reflexivity|]. split; [reflexivity|].
  exact (Do_rejected_request (H := sample.library) Rev2 "GET" "http://example.test/a b" []
           (NewRequest sample.client) sample.world sample_more.rejected
           eq_refl eq_refl eq_refl).
Defined.

Lemma Do_panics_with_pending_cookies_witness :
  let r := SetCookies sample_more.session (NewRequest sample.client) in
  err r = None ∧
  http.NewRequest (H := sample.library) "GET" "http://example.test/a b" (body r)
    = inl sample_more.rejected ∧
  cookies r ≠ [] ∧
  Do (H := sample.library) Rev1 "GET" "http://example.test/a b" [] r sample.world =
    (Panics "nil pointer dereference", closeReader (body r) sample.world).
Proof.
  assert (cookies (SetCookies sample_more.session (NewRequest sample.client)) ≠ [])
    as Hcs by discriminate.
  cbn zeta. split; [reflexivity|]. split; [reflexivity|]. split; [exact Hcs|].
  exact (Do_panics_with_pending_cookies (H := sample.library) Rev1 "GET"
           "http://example.test/a b" []
           (SetCookies sample_more.session (NewRequest sample.client))
           sample.world sample_more.rejected eq_refl eq_refl Hcs).
Defined.

Lemma Do_after_rejection_witness :
  let r := NewRequest sample.client in
  err r = None ∧
  http.NewRequest (H := sample.library) "GET" "http://example.test/a b" (body r)
    = inl sample_more.rejected ∧
  cookies r = [] ∧
  ∃ shell r1,
    (Do (H := sample.library) Rev1 "GET" "http://example.test/a b" [] r sample.world).1
      = Returns (shell, r1) ∧
    ∀ method' uri' headers' w',
      (Do (H := sample.library) Rev1 method' uri' headers' r1 w').1
        = Returns (short_circuit Rev1 sample_more.rejected, r1) ∧
      sent (Do (H := sample.library) Rev1 method' uri' headers' r1 w').2 = sent w'.
Proof.
  cbn zeta. split; [reflexivity|]. split; [reflexivity|]. split; [reflexivity|].
  exact (Do_after_rejection (H := sample.library) Rev1 "GET" "http://example.test/a b" []
           (NewRequest sample.client) sample.world sample_more.rejected
           eq_refl eq_refl eq_refl).
Defined.

Lemma Do_extra_headers_override_witness :
  let r := WithForm sample_more.form (NewRequest sample.client) in
  let headers := [sample_more.accept] in
  let canon := http.CanonicalMIMEHeaderKey (Library := sample.library) in
  err r = None ∧
  http.validMethod (Library := sample.library) "POST" = true ∧
  http.url_Parse (Library := sample.library) "http://example.test/x?old=1"
    = inr sample_more.page ∧
  Forall (λ entry : string * list string, entry.2 ≠ []) (hd [] headers) ∧
  NoDup (canon <$> (hd [] headers).*1) ∧
  ∃ req,
    sent (Do (H := sample.library) Rev1 "POST" "http://example.test/x?old=1" headers r
             sample.world).2 = sent sample.world ++ [req] ∧
    (∀ key val,
       (key, val) ∈ hd [] headers →
       canon key ≠ canon "Cookie" →
       http.Hdr req !! canon key = Some [hd EmptyString val]) ∧
    (canon "Content-Type" ∉ canon <$> (hd [] headers).*1 →
     canon "Content-Type" ≠ canon "Cookie" →
     http.Hdr req !! canon "Content-Type"
       = if isEmpty (mime r) then None else Some [mime r]).
Proof.
  assert (Forall (λ entry : string * list string, entry.2 ≠ [])
            (hd [] [sample_more.accept])) as Hh
    by (repeat constructor; discriminate).
  assert (NoDup (http.CanonicalMIMEHeaderKey (Library := sample.library)
                   <$> (hd [] [sample_more.accept]).*1)) as Hnd
    by (cbn; apply NoDup_cons_2; [by intros [=]%list_elem_of_singleton|apply NoDup_singleton]).
  cbn zeta. split; [reflexivity|]. split; [reflexivity|]. split; [reflexivity|].
  split; [exact Hh|]. split; [exact Hnd|].
  exact (Do_extra_headers_override (H := sample.library) Rev1 "POST"
           "http://example.test/x?old=1" [sample_more.accept]
           (WithForm sample_more.form (NewRequest sample.client))
           sample.world sample_more.page eq_refl eq_refl eq_refl Hh Hnd).
Defined.

Lemma prepareCookies_header_witness :
  let r := sample_more.holding in
  let q := {| http.Method := "GET"; http.Url := sample_more.page; http.Hdr := ∅;
              http.Body := None |} in
  Request_http r = Some q ∧
  Forall (λ c, http.cookie_text (Library := sample.library) c ≠ EmptyString) (cookies r) ∧
  ∃ q',
    prepareCookies (H := sample.library) r = Returns (set_http (Some q') r) ∧
    http.Header_Get (H := sample.library) "Cookie" (http.Hdr q') =
      (let old := http.Header_Get (H := sample.library) "Cookie" (http.Hdr q) in
       let new := join_cookies (http.cookie_text (Library := sample.library) <$> cookies r) in
       match cookies r with
       | [] => old
       | _ :: _ => if isEmpty old then new else old +:+ "; " +:+ new
       end) ∧
    (∀ K, K ≠ http.CanonicalMIMEHeaderKey (Library := sample.library) "Cookie" →
          http.Hdr q' !! K = http.Hdr q !! K) ∧
    http.Url q' = http.Url q ∧
    http.Method q' = http.Method q ∧
    http.Body q' = http.Body q.
Proof.
  assert (Forall (λ c, http.cookie_text (Library := sample.library) c ≠ EmptyString)
            (cookies sample_more.holding)) as Hcs
    by (repeat constructor; discriminate).
  cbn zeta. split; [reflexivity|]. split; [exact Hcs|].
  exact (prepareCookies_header (H := sample.library) sample_more.holding _ eq_refl Hcs).
Defined.

Lemma Json_then_Do_witness :
  let r := NewRequest sample.client in
  let canon := http.CanonicalMIMEHeaderKey (Library := sample.library) in
  json_Marshal (Marshaler := sample.data_Marshaler) (sample.data_bool true) = inr "true" ∧
  err r = None ∧
  http.validMethod (Library := sample.library) "POST" = true ∧
  http.url_Parse (Library := sample.library) "http://example.test/x?old=1"
    = inr sample_more.page ∧
  canon "Content-Type" ≠ canon "Cookie" ∧
  ∃ req,
    sent (Do (H := sample.library) Rev1 "POST" "http://example.test/x?old=1" []
             (Json (H := sample.data_Marshaler) (sample.data_bool true) r)
             sample.world).2 = sent sample.world ++ [req] ∧
    http.Body req = Some (bytes_NewReader "true") ∧
    http.Hdr req !! canon "Content-Type" = Some ["application/json"] ∧
    closed_readers (Do (H := sample.library) Rev1 "POST" "http://example.test/x?old=1" []
                       (Json (H := sample.data_Marshaler) (sample.data_bool true) r)
                       sample.world).2
      = closed_readers sample.world ++ [bytes_NewReader "true"].
Proof.
  assert (http.CanonicalMIMEHeaderKey (Library := sample.library) "Content-Type"
          ≠ http.CanonicalMIMEHeaderKey (Library := sample.library) "Cookie") as Hkey
    by discriminate.
  cbn zeta. split; [reflexivity|]. split; [reflexivity|]. split; [reflexivity|].
  split; [reflexivity|]. split; [exact Hkey|].
  exact (Json_then_Do (H := sample.library) (H0 := sample.data_Marshaler) Rev1 "POST"
           "http://example.test/x?old=1" (sample.data_bool true) "true"
           (NewRequest sample.client) sample.world sample_more.page
           eq_refl eq_refl eq_refl eq_refl Hkey).
Defined.

End DispatchWitnesses.
